(** * Planar 3-DOF manipulator dashboard: kinematics and playback

    Shallow embedding of [frontend/app/viz/lspb-manipulator/page.tsx]
    (the [LspbDashboard] component).

    JavaScript numbers are idealised as the real numbers [R] of the
    Standard Library, as the specification's data model does ("real
    numbers"); rounding of IEEE doubles is outside this model.

    The component's React state is a record; its event handlers, the
    animation effect and the browser's pending callbacks
    (requestAnimationFrame, setTimeout, fetch) are an explicit
    state-passing step function over events. *)

From Stdlib Require Import Reals Lra List Bool Arith ZArith String Lia.
From Stdlib Require DecimalString.
Import ListNotations.

Open Scope R_scope.

(* ================================================================= *)
(** ** Data *)

(** [{ x, y }] in robot space. *)
Record Point2D : Type := mkPoint { px : R; py : R }.

(** [{ cx, cy }] in canvas space. *)
Record CanvasPoint : Type := mkCanvas { cx : R; cy : R }.

(** The three relative joint angles, [number[]] of length three in the
    source ([currentAngles], [[pt.q1, pt.q2, pt.q3]]). *)
Definition Angles : Type := (R * R * R)%type.

Definition CANVAS_WIDTH : R := 600.
Definition CANVAS_HEIGHT : R := 600.
Definition BASE_X : R := CANVAS_WIDTH / 2.
Definition BASE_Y : R := CANVAS_HEIGHT / 2.

(* ================================================================= *)
(** ** Coordinate mapping *)

Definition toCanvasCoords (x y : R) : CanvasPoint :=
  {| cx := BASE_X + x; cy := BASE_Y - y |}.

Definition toRobotCoords (cx cy : R) : Point2D :=
  {| px := cx - BASE_X; py := BASE_Y - cy |}.

(* ================================================================= *)
(** ** Forward kinematics *)

(** The body of [for (let i = 0; i < 3; i++)] in [getJointPositions]:
    [qs] and [ls] are the not yet visited entries of [q] and [lengths],
    [x], [y], [currentAngle] the loop-carried variables and [points]
    the array built so far. *)
Fixpoint fkLoop (qs ls : list R) (x y currentAngle : R)
         (points : list Point2D) : list Point2D :=
  match qs, ls with
  | qi :: qs', li :: ls' =>
      let currentAngle := currentAngle + qi in
      let x := x + li * cos currentAngle in
      let y := y + li * sin currentAngle in
      fkLoop qs' ls' x y currentAngle (points ++ [mkPoint x y])
  | _, _ => points
  end.

Definition getJointPositions (q : Angles) (l1 l2 l3 : R) : list Point2D :=
  let '(qa, qb, qc) := q in
  fkLoop [qa; qb; qc] [l1; l2; l3] 0 0 0 [mkPoint 0 0].

(** The chain as the specification words it: point 0 is the base and
    point [i+1] is point [i] plus [length[i]] times the unit vector of
    the running sum of the angles. *)
Definition fkSpec (q : Angles) (l1 l2 l3 : R) : list Point2D :=
  let '(qa, qb, qc) := q in
  let th1 := qa in
  let th2 := qa + qb in
  let th3 := qa + qb + qc in
  let p0 := mkPoint 0 0 in
  let p1 := mkPoint (px p0 + l1 * cos th1) (py p0 + l1 * sin th1) in
  let p2 := mkPoint (px p1 + l2 * cos th2) (py p1 + l2 * sin th2) in
  let p3 := mkPoint (px p2 + l3 * cos th3) (py p2 + l3 * sin th3) in
  [p0; p1; p2; p3].

(* ================================================================= *)
(** ** Live Jacobian *)

(** [getLiveJacobian]; the link lengths are the component state
    [L1], [L2], [L3] it closes over. *)
Definition getLiveJacobian (L1 L2 L3 : R) (q : Angles) : list (list R) :=
  let '(qa, qb, qc) := q in
  let s1 := sin qa in
  let c1 := cos qa in
  let s12 := sin (qa + qb) in
  let c12 := cos (qa + qb) in
  let s123 := sin (qa + qb + qc) in
  let c123 := cos (qa + qb + qc) in
  [ [ - L1 * s1 - L2 * s12 - L3 * s123; - L2 * s12 - L3 * s123; - L3 * s123 ];
    [ L1 * c1 + L2 * c12 + L3 * c123; L2 * c12 + L3 * c123; L3 * c123 ] ].

(** The specification's formula.  [theta q k] is the cumulative angle
    written θ_{k+1} there (k = 0, 1, 2), and the sums run over the
    links [k >= i]. *)
Definition theta (q : Angles) (k : nat) : R :=
  let '(qa, qb, qc) := q in
  match k with
  | O => qa
  | S O => qa + qb
  | _ => qa + qb + qc
  end.

Fixpoint sumFrom (f : nat -> R) (i n : nat) : R :=
  match n with
  | O => 0
  | S n' => f i + sumFrom f (S i) n'
  end.

Definition jacobianSpec (q : Angles) (lengths : nat -> R) (row i : nat) : R :=
  match row with
  | O => - sumFrom (fun k => lengths k * sin (theta q k)) i (3 - i)
  | _ => sumFrom (fun k => lengths k * cos (theta q k)) i (3 - i)
  end.

Definition lengthsOf (l1 l2 l3 : R) (k : nat) : R :=
  match k with O => l1 | S O => l2 | _ => l3 end.

(* ================================================================= *)
(** ** Reach clamping *)

(** [const maxReach = L1 + L2 + L3 - 0.1] in [handleCanvasClick]. *)
Definition maxReach (L1 L2 L3 : R) : R := L1 + L2 + L3 - 1 / 10.

(** [Math.sqrt(target.x ** 2 + target.y ** 2)]. *)
Definition dist (t : Point2D) : R := sqrt (px t ^ 2 + py t ^ 2).

(** The "CLAMPING LOGIC" block of [handleCanvasClick]. *)
Definition clamp (target : Point2D) (maxReach : R) : Point2D :=
  let d := dist target in
  if Rgt_dec d maxReach
  then {| px := px target / d * maxReach; py := py target / d * maxReach |}
  else target.

(* ================================================================= *)
(** ** Component state *)

(** One sample as the planning service returns it. *)
Record RawSample : Type := mkRaw { r_time : R; r_q1 : R; r_q2 : R; r_q3 : R }.

(** One element of [trajectory]: the service's sample augmented with
    the end-effector position. *)
Record Sample : Type :=
  mkSample { time : R; q1 : R; q2 : R; q3 : R; ee_x : R; ee_y : R }.

(** The [useState] cells of [LspbDashboard]. *)
Record UI : Type := mkUI {
  L1 : R;
  L2 : R;
  L3 : R;
  duration : R;
  currentAngles : Angles;
  targetXY : option Point2D;
  trajectory : list Sample;
  isAnimating : bool;
  currentFrame : nat;
  hoverFrame : option Z;
  error : option string }.

Definition setL1 (v : R) (u : UI) : UI :=
  mkUI v (L2 u) (L3 u) (duration u) (currentAngles u) (targetXY u)
       (trajectory u) (isAnimating u) (currentFrame u) (hoverFrame u) (error u).
Definition setL2 (v : R) (u : UI) : UI :=
  mkUI (L1 u) v (L3 u) (duration u) (currentAngles u) (targetXY u)
       (trajectory u) (isAnimating u) (currentFrame u) (hoverFrame u) (error u).
Definition setL3 (v : R) (u : UI) : UI :=
  mkUI (L1 u) (L2 u) v (duration u) (currentAngles u) (targetXY u)
       (trajectory u) (isAnimating u) (currentFrame u) (hoverFrame u) (error u).
Definition setDuration (v : R) (u : UI) : UI :=
  mkUI (L1 u) (L2 u) (L3 u) v (currentAngles u) (targetXY u)
       (trajectory u) (isAnimating u) (currentFrame u) (hoverFrame u) (error u).
Definition setCurrentAngles (v : Angles) (u : UI) : UI :=
  mkUI (L1 u) (L2 u) (L3 u) (duration u) v (targetXY u)
       (trajectory u) (isAnimating u) (currentFrame u) (hoverFrame u) (error u).
Definition setTargetXY (v : option Point2D) (u : UI) : UI :=
  mkUI (L1 u) (L2 u) (L3 u) (duration u) (currentAngles u) v
       (trajectory u) (isAnimating u) (currentFrame u) (hoverFrame u) (error u).
Definition setTrajectory (v : list Sample) (u : UI) : UI :=
  mkUI (L1 u) (L2 u) (L3 u) (duration u) (currentAngles u) (targetXY u)
       v (isAnimating u) (currentFrame u) (hoverFrame u) (error u).
Definition setIsAnimating (v : bool) (u : UI) : UI :=
  mkUI (L1 u) (L2 u) (L3 u) (duration u) (currentAngles u) (targetXY u)
       (trajectory u) v (currentFrame u) (hoverFrame u) (error u).
Definition setCurrentFrame (v : nat) (u : UI) : UI :=
  mkUI (L1 u) (L2 u) (L3 u) (duration u) (currentAngles u) (targetXY u)
       (trajectory u) (isAnimating u) v (hoverFrame u) (error u).
Definition setHoverFrame (v : option Z) (u : UI) : UI :=
  mkUI (L1 u) (L2 u) (L3 u) (duration u) (currentAngles u) (targetXY u)
       (trajectory u) (isAnimating u) (currentFrame u) v (error u).
Definition setError (v : option string) (u : UI) : UI :=
  mkUI (L1 u) (L2 u) (L3 u) (duration u) (currentAngles u) (targetXY u)
       (trajectory u) (isAnimating u) (currentFrame u) (hoverFrame u) v.

(** The pose [[Math.PI / 4, -Math.PI / 4, -Math.PI / 4]], the initial
    value of [currentAngles] and the one the Reset button writes. *)
Definition homeAngles : Angles := (PI / 4, - PI / 4, - PI / 4).

Definition initialUI : UI :=
  {| L1 := 100; L2 := 80; L3 := 60; duration := 5 / 2;
     currentAngles := homeAngles; targetXY := None; trajectory := [];
     isAnimating := false; currentFrame := 0%nat; hoverFrame := None;
     error := None |}.

Definition anglesOf (s : Sample) : Angles := (q1 s, q2 s, q3 s).

(** [trajectory[i]] for a JavaScript number [i] holding an integer:
    [undefined] (here [None]) unless [0 <= i < trajectory.length]. *)
Definition sampleAt (t : list Sample) (i : Z) : option Sample :=
  if (i <? 0)%Z then None else nth_error t (Z.to_nat i).

(** [displayAngles]: the hovered sample's angles when there is a hover
    frame and the trajectory has a sample there, else [currentAngles]. *)
Definition displayAngles (u : UI) : Angles :=
  match hoverFrame u with
  | Some h =>
      match sampleAt (trajectory u) h with
      | Some s => anglesOf s
      | None => currentAngles u
      end
  | None => currentAngles u
  end.

(** The three states of the status line: "History Scrubbing..." when
    [hoverFrame !== null], else "Executing Path..." when [isAnimating],
    else "Idle (Click Canvas)". *)
Inductive PlaybackState : Type := Idle | Animating | Scrubbing.

Definition status (u : UI) : PlaybackState :=
  match hoverFrame u with
  | Some _ => Scrubbing
  | None => if isAnimating u then Animating else Idle
  end.

(* ================================================================= *)
(** ** Planning requests *)

(** The JSON body of the POST to [/api/generate_trajectory]. *)
Record Request : Type := mkRequest {
  current_angles : Angles;
  target_x : R;
  target_y : R;
  req_duration : R;
  dt : R;
  l1 : R;
  l2 : R;
  l3 : R }.

(** How an awaited [fetch] can end inside the [try] block. *)
Inductive Outcome : Type :=
| Succeeded (data : list RawSample)  (* [res.ok], body [{ trajectory }] *)
| NotOk (detail : option string)     (* [!res.ok], body [{ detail }] *)
| Thrown (message : string).         (* [fetch] or [res.json()] rejected *)

(** [(await res.json()).detail || "Failed to generate trajectory"]:
    a missing or empty [detail] is falsy. *)
Definition notOkMessage (detail : option string) : string :=
  match detail with
  | Some EmptyString | None => "Failed to generate trajectory"%string
  | Some d => d
  end.

(** The message the [catch] block receives, when the outcome throws. *)
Definition failureMessage (r : Outcome) : option string :=
  match r with
  | Succeeded _ => None
  | NotOk detail => Some (notOkMessage detail)
  | Thrown message => Some message
  end.

(** The callback of [data.trajectory.map]. *)
Definition enrich (l1 l2 l3 : R) (pt : RawSample) : Sample :=
  let ee := nth 3 (getJointPositions (r_q1 pt, r_q2 pt, r_q3 pt) l1 l2 l3)
                (mkPoint 0 0) in
  {| time := r_time pt; q1 := r_q1 pt; q2 := r_q2 pt; q3 := r_q3 pt;
     ee_x := px ee; ee_y := py ee |}.

(* ================================================================= *)
(** ** The page and the browser's pending callbacks *)

(** The variables one run of the animation effect closes over:
    the [trajectory] of that render, [let frameIndex] and
    [let frameId]. *)
Record Loop : Type :=
  mkLoop { loopTrajectory : list Sample; frameIndex : nat; frameId : nat }.

Fixpoint assoc {A : Type} (k : nat) (l : list (nat * A)) : option A :=
  match l with
  | [] => None
  | (k', v) :: l' => if Nat.eqb k k' then Some v else assoc k l'
  end.

Fixpoint unassoc {A : Type} (k : nat) (l : list (nat * A)) : list (nat * A) :=
  match l with
  | [] => []
  | (k', v) :: l' =>
      if Nat.eqb k k' then unassoc k l' else (k', v) :: unassoc k l'
  end.

Fixpoint reassoc {A : Type} (k : nat) (v : A) (l : list (nat * A))
  : list (nat * A) :=
  match l with
  | [] => []
  | (k', v') :: l' =>
      if Nat.eqb k k' then (k', v) :: l' else (k', v') :: reassoc k v l'
  end.

Record Machine : Type := mkMachine {
  ui : UI;
  (** identity of the array held by [trajectory]: React compares the
      effect's dependencies with [Object.is] *)
  trajectoryRef : nat;
  (** the closures of the effect runs that started a loop *)
  loops : list (nat * Loop);
  (** the loop whose cleanup function the last effect run returned *)
  cleanup : option nat;
  (** pending [requestAnimationFrame] callbacks: handle, loop *)
  frames : list (nat * nat);
  (** pending [setTimeout] callbacks: handle, loop *)
  timeouts : list (nat * nat);
  (** pending [fetch] calls: handle, request sent *)
  fetches : list (nat * Request);
  (** next unused handle *)
  fresh : nat }.

Definition withUI (u : UI) (m : Machine) : Machine :=
  mkMachine u (trajectoryRef m) (loops m) (cleanup m) (frames m)
            (timeouts m) (fetches m) (fresh m).

Definition initial : Machine :=
  {| ui := initialUI; trajectoryRef := 0%nat; loops := []; cleanup := None;
     frames := []; timeouts := []; fetches := []; fresh := 1%nat |}.

(** What the user, the network and the browser can do to the page. *)
Inductive Event : Type :=
| Click (rect : option (R * R)) (clientX clientY : R)
| Response (handle : nat) (r : Outcome)
| HoverMove (activeTooltipIndex : option Z)
| HoverLeave
| Reset
| ChangeL1 (v : R)
| ChangeL2 (v : R)
| ChangeL3 (v : R)
| ChangeDuration (v : R)
| AnimationFrame (handle : nat)
| TimerFired (handle : nat).

(** [animate], called for the loop [l]. *)
Definition animate (l : nat) (m : Machine) : Machine :=
  match assoc l (loops m) with
  | None => m
  | Some c =>
      let t := loopTrajectory c in
      if (List.length t <=? frameIndex c)%nat then
        match nth_error t (List.length t - 1) with
        | Some finalPoint =>
            withUI (setCurrentAngles (anglesOf finalPoint)
                      (setIsAnimating false (ui m))) m
        | None => withUI (setIsAnimating false (ui m)) m
        end
      else
        match nth_error t (frameIndex c) with
        | Some point =>
            {| ui := setCurrentAngles (anglesOf point)
                       (setCurrentFrame (frameIndex c) (ui m));
               trajectoryRef := trajectoryRef m;
               loops := reassoc l (mkLoop t (S (frameIndex c)) (frameId c))
                                (loops m);
               cleanup := cleanup m;
               frames := frames m;
               timeouts := timeouts m ++ [(fresh m, l)];
               fetches := fetches m;
               fresh := S (fresh m) |}
        | None => m
        end
  end.

(** The [setTimeout] callback of the loop [l]:
    [frameId = requestAnimationFrame(animate)]. *)
Definition rearm (l : nat) (m : Machine) : Machine :=
  match assoc l (loops m) with
  | None => m
  | Some c =>
      {| ui := ui m;
         trajectoryRef := trajectoryRef m;
         loops := reassoc l (mkLoop (loopTrajectory c) (frameIndex c) (fresh m))
                          (loops m);
         cleanup := cleanup m;
         frames := frames m ++ [(fresh m, l)];
         timeouts := timeouts m;
         fetches := fetches m;
         fresh := S (fresh m) |}
  end.

(** [handleCanvasClick] up to the [await]. *)
Definition handleCanvasClick (rect : option (R * R)) (clientX clientY : R)
           (m : Machine) : Machine :=
  let u := ui m in
  if isAnimating u then m
  else
    match rect with
    | None => m
    | Some (rectLeft, rectTop) =>
        let cx := clientX - rectLeft in
        let cy := clientY - rectTop in
        let target := toRobotCoords cx cy in
        let target := clamp target (maxReach (L1 u) (L2 u) (L3 u)) in
        {| ui := setError None (setTargetXY (Some target) u);
           trajectoryRef := trajectoryRef m;
           loops := loops m;
           cleanup := cleanup m;
           frames := frames m;
           timeouts := timeouts m;
           fetches := fetches m ++
             [(fresh m,
               {| current_angles := currentAngles u;
                  target_x := px target; target_y := py target;
                  req_duration := duration u; dt := 5 / 100;
                  l1 := L1 u; l2 := L2 u; l3 := L3 u |})];
           fresh := S (fresh m) |}
    end.

(** The rest of [handleCanvasClick], run when the fetch [h] settles.
    The [L1], [L2], [L3] of the suspended handler are those of the
    render that was clicked, the values sent in the request. *)
Definition handleResponse (h : nat) (r : Outcome) (m : Machine) : Machine :=
  match assoc h (fetches m) with
  | None => m
  | Some rq =>
      let pending := unassoc h (fetches m) in
      match r with
      | Succeeded data =>
          let enrichedTrajectory := map (enrich (l1 rq) (l2 rq) (l3 rq)) data in
          {| ui := setIsAnimating true
                     (setCurrentFrame 0 (setTrajectory enrichedTrajectory (ui m)));
             trajectoryRef := fresh m;
             loops := loops m;
             cleanup := cleanup m;
             frames := frames m;
             timeouts := timeouts m;
             fetches := pending;
             fresh := S (fresh m) |}
      | NotOk detail =>
          {| ui := setTargetXY None (setError (Some (notOkMessage detail)) (ui m));
             trajectoryRef := trajectoryRef m;
             loops := loops m;
             cleanup := cleanup m;
             frames := frames m;
             timeouts := timeouts m;
             fetches := pending;
             fresh := fresh m |}
      | Thrown message =>
          {| ui := setTargetXY None (setError (Some message) (ui m));
             trajectoryRef := trajectoryRef m;
             loops := loops m;
             cleanup := cleanup m;
             frames := frames m;
             timeouts := timeouts m;
             fetches := pending;
             fresh := fresh m |}
      end
  end.

(** The [onClick] of the "Reset Pose" button. *)
Definition handleReset (m : Machine) : Machine :=
  {| ui := setHoverFrame None
             (setError None
                (setTargetXY None
                   (setTrajectory [] (setCurrentAngles homeAngles (ui m)))));
     trajectoryRef := fresh m;
     loops := loops m;
     cleanup := cleanup m;
     frames := frames m;
     timeouts := timeouts m;
     fetches := fetches m;
     fresh := S (fresh m) |}.

(** [onMouseMove] of the charts:
    [e.activeTooltipIndex !== undefined && setHoverFrame(e.activeTooltipIndex)]. *)
Definition handleMouseMove (activeTooltipIndex : option Z) (m : Machine)
  : Machine :=
  match activeTooltipIndex with
  | Some i => withUI (setHoverFrame (Some i) (ui m)) m
  | None => m
  end.

(** [onMouseLeave] of the charts. *)
Definition handleMouseLeave (m : Machine) : Machine :=
  withUI (setHoverFrame None (ui m)) m.

Definition handle (e : Event) (m : Machine) : Machine :=
  match e with
  | Click rect clientX clientY => handleCanvasClick rect clientX clientY m
  | Response h r => handleResponse h r m
  | HoverMove i => handleMouseMove i m
  | HoverLeave => handleMouseLeave m
  | Reset => handleReset m
  | ChangeL1 v => withUI (setL1 v (ui m)) m
  | ChangeL2 v => withUI (setL2 v (ui m)) m
  | ChangeL3 v => withUI (setL3 v (ui m)) m
  | ChangeDuration v => withUI (setDuration v (ui m)) m
  | AnimationFrame h =>
      match assoc h (frames m) with
      | Some l =>
          animate l (mkMachine (ui m) (trajectoryRef m) (loops m) (cleanup m)
                               (unassoc h (frames m)) (timeouts m)
                               (fetches m) (fresh m))
      | None => m
      end
  | TimerFired h =>
      match assoc h (timeouts m) with
      | Some l =>
          rearm l (mkMachine (ui m) (trajectoryRef m) (loops m) (cleanup m)
                             (frames m) (unassoc h (timeouts m))
                             (fetches m) (fresh m))
      | None => m
      end
  end.

(** ** The animation effect, [useEffect(..., [isAnimating, trajectory, hoverFrame])] *)

Definition optZ_eqb (a b : option Z) : bool :=
  match a, b with
  | Some x, Some y => (x =? y)%Z
  | None, None => true
  | _, _ => false
  end.

(** Whether one of the effect's dependencies differs between two
    renders. *)
Definition depsChanged (old new : Machine) : bool :=
  negb (Bool.eqb (isAnimating (ui old)) (isAnimating (ui new)))
  || negb (Nat.eqb (trajectoryRef old) (trajectoryRef new))
  || negb (optZ_eqb (hoverFrame (ui old)) (hoverFrame (ui new))).

(** The cleanup [() => cancelAnimationFrame(frameId)] of the previous
    effect run, if that run returned one. *)
Definition runCleanup (m : Machine) : Machine :=
  match cleanup m with
  | None => m
  | Some l =>
      match assoc l (loops m) with
      | Some c =>
          mkMachine (ui m) (trajectoryRef m) (loops m) None
                    (unassoc (frameId c) (frames m)) (timeouts m)
                    (fetches m) (fresh m)
      | None =>
          mkMachine (ui m) (trajectoryRef m) (loops m) None (frames m)
                    (timeouts m) (fetches m) (fresh m)
      end
  end.

(** The effect body. *)
Definition runEffect (m : Machine) : Machine :=
  let u := ui m in
  if negb (isAnimating u)
     || Nat.eqb (List.length (trajectory u)) 0
     || match hoverFrame u with Some _ => true | None => false end
  then m
  else
    let l := fresh m in
    let h := S (fresh m) in
    {| ui := u;
       trajectoryRef := trajectoryRef m;
       loops := (l, mkLoop (trajectory u) 0 h) :: loops m;
       cleanup := Some l;
       frames := frames m ++ [(h, l)];
       timeouts := timeouts m;
       fetches := fetches m;
       fresh := S (S (fresh m)) |}.

(** One turn of the event loop: the handler, then the re-render, which
    re-runs the effect when a dependency changed. *)
Definition step (m : Machine) (e : Event) : Machine :=
  let m' := handle e m in
  if depsChanged m m' then runEffect (runCleanup m') else m'.

Definition run (m : Machine) (es : list Event) : Machine :=
  fold_left step es m.

(** The frame the loop registered by the last effect run will play next. *)
Definition activeFrameIndex (m : Machine) : option nat :=
  match cleanup m with
  | Some l => option_map frameIndex (assoc l (loops m))
  | None => None
  end.

(** The browser's choice of the next pending callback when nothing else
    happens: animation frames before timers, oldest first. *)
Definition nextCallback (m : Machine) : option Event :=
  match frames m with
  | (h, _) :: _ => Some (AnimationFrame h)
  | [] =>
      match timeouts m with
      | (h, _) :: _ => Some (TimerFired h)
      | [] => None
      end
  end.

Fixpoint play (n : nat) (m : Machine) : Machine :=
  match n with
  | O => m
  | S n' =>
      match nextCallback m with
      | Some e => play n' (step m e)
      | None => m
      end
  end.

(** A machine whose only pending callback is the animation frame [h] of
    the loop [l], which is the loop of the last effect run, closes over
    the trajectory [t] and will play frame [k] next. *)
Definition armed (t : list Sample) (k l h : nat) (m : Machine) : Prop :=
  isAnimating (ui m) = true /\ hoverFrame (ui m) = None /\ cleanup m = Some l
  /\ assoc l (loops m) = Some (mkLoop t k h)
  /\ frames m = [(h, l)] /\ timeouts m = [].

(* ================================================================= *)
(** ** A concrete session

    A click at the canvas centre's right, answered with three samples
    whose first angles are 0, 1 and 2. *)

Definition rawA : RawSample := mkRaw 0 0 0 0.
Definition rawB : RawSample := mkRaw (5 / 100) 1 0 0.
Definition rawC : RawSample := mkRaw (10 / 100) 2 0 0.

Definition clickAt : Event := Click (Some (0, 0)) 400 300.

(** The request has the handle 1; the effect run after the response
    creates the loop 3 and requests the animation frame 4. *)
Definition started : Machine :=
  run initial [clickAt; Response 1 (Succeeded [rawA; rawB; rawC])].

(** Frames 0 and 1 have been played and the animation frame 8, which
    will play frame 2, is requested. *)
Definition playing : Machine :=
  run started [AnimationFrame 4; TimerFired 5; AnimationFrame 6; TimerFired 7].

(** The pointer enters a chart over sample 0 and leaves it again. *)
Definition resumed : Machine :=
  run playing [HoverMove (Some 0%Z); HoverLeave].

(** A longer answer, four samples, for the session [completed]. *)
Definition rawD : RawSample := mkRaw (15 / 100) 3 0 0.

Definition startedLong : Machine :=
  run initial [clickAt; Response 1 (Succeeded [rawA; rawB; rawC; rawD])].

(** Frames 0, 1 and 2 have been played and the 50 ms timer 9 of the
    loop 3 is running when the pointer enters and leaves a chart.  The
    effect run on hover-leave starts the loop 10.  Both loops go on,
    their callbacks in the order the browser runs them (animation
    frames in the order requested, timers in the order set); the loop 3
    plays frame 3 and reaches the end of the trajectory while the
    loop 10, which has played frames 0 and 1, waits for its timer 16. *)
Definition completed : Machine :=
  run startedLong
      [AnimationFrame 4; TimerFired 5; AnimationFrame 6; TimerFired 7;
       AnimationFrame 8;
       HoverMove (Some 0%Z); HoverLeave;
       AnimationFrame 11; TimerFired 9; AnimationFrame 13;
       TimerFired 12; AnimationFrame 15;
       TimerFired 14; AnimationFrame 17].

(** A request is in flight and nothing is animating. *)
Definition requested : Machine := step initial clickAt.

(** A request is in flight when Reset is pressed. *)
Definition superseded : Machine := run initial [clickAt; Reset].

(** Two clicks before any response: the requests 1 and 2 are in flight.
    Request 1 is answered with three samples and its playback starts
    while request 2 is still pending. *)
Definition overlapped : Machine :=
  run initial [clickAt; Click (Some (0, 0)) 350 300;
               Response 1 (Succeeded [rawA; rawB; rawC])].

(* ================================================================= *)
(** ** Derived geometry *)

(** [getJointPositions(q)[3]], the end effector ([eePos] of the
    render, [ee] of the enrichment). *)
Definition endEffector (q : Angles) (l1 l2 l3 : R) : Point2D :=
  nth 3 (getJointPositions q l1 l2 l3) (mkPoint 0 0).

(** [liveJ[row][i]] as the read-out indexes the matrix. *)
Definition entryOf (m : list (list R)) (row i : nat) : R :=
  nth i (nth row m []) 0.

(** The vector from [p] to [q]. *)
Definition between (p q : Point2D) : Point2D :=
  mkPoint (px q - px p) (py q - py p).

(* ================================================================= *)
(** ** The error banner and the sliders *)

(** [{error && (...)}]: the banner is rendered when [error] is a
    non-empty string. *)
Definition bannerShown (u : UI) : bool :=
  match error u with
  | Some EmptyString | None => false
  | Some _ => true
  end.

(** The events of the four range inputs. *)
Definition isSlider (e : Event) : bool :=
  match e with
  | ChangeL1 _ | ChangeL2 _ | ChangeL3 _ | ChangeDuration _ => true
  | _ => false
  end.

(** The [min] and [max] of the three length sliders. *)
Definition sliderInRange (e : Event) : Prop :=
  match e with
  | ChangeL1 v | ChangeL2 v => 50 <= v <= 150
  | ChangeL3 v => 30 <= v <= 100
  | _ => True
  end.

Definition lengthsInRange (a b c : R) : Prop :=
  50 <= a <= 150 /\ 50 <= b <= 150 /\ 30 <= c <= 100.

(** A request whose lengths a slider can produce and whose target is
    within their reach less the 0.1 buffer. *)
Definition wellPosed (rq : Request) : Prop :=
  lengthsInRange (l1 rq) (l2 rq) (l3 rq)
  /\ dist (mkPoint (target_x rq) (target_y rq))
     <= maxReach (l1 rq) (l2 rq) (l3 rq).

Definition safe (m : Machine) : Prop :=
  lengthsInRange (L1 (ui m)) (L2 (ui m)) (L3 (ui m))
  /\ Forall (fun hr => wellPosed (snd hr)) (fetches m).

(** The handles of the pending requests are below the next unused
    one. *)
Definition handlesFresh (m : Machine) : Prop :=
  Forall (fun hr : nat * Request => (fst hr < fresh m)%nat) (fetches m).

(** A page that shows "Executing Path..." with no trajectory, no
    pending callback and no pending request. *)
Definition stuck (m : Machine) : Prop :=
  isAnimating (ui m) = true /\ trajectory (ui m) = []
  /\ frames m = [] /\ timeouts m = [] /\ fetches m = [].

(* ================================================================= *)
(** ** Drawing *)

(** The calls and property writes [drawCanvas] makes on the 2D
    context, in order. *)
Inductive Cmd : Type :=
| ClearRect (x y w h : R)
| GlobalAlpha (a : R)
| StrokeStyle (s : string)
| FillStyle (s : string)
| LineWidth (w : R)
| LineCap (s : string)
| LineJoin (s : string)
| SetLineDash (segments : list R)
| BeginPath
| MoveTo (x y : R)
| LineTo (x y : R)
| Arc (x y radius startAngle endAngle : R)
| Stroke
| Fill.

(** The body of [for (let i = 0; i < CANVAS_WIDTH; i += 50)]; [i] runs
    over integers, and [fuel] bounds the number of rounds. *)
Fixpoint gridLines (fuel : nat) (i : Z) : list Cmd :=
  match fuel with
  | O => []
  | S fuel' =>
      if (i <? 600)%Z then
        [ BeginPath; MoveTo (IZR i) 0; LineTo (IZR i) CANVAS_HEIGHT; Stroke;
          BeginPath; MoveTo 0 (IZR i); LineTo CANVAS_WIDTH (IZR i); Stroke ]
        ++ gridLines fuel' (i + 50)
      else []
  end.

(** The callback of [trajectory.forEach], from index [idx] on. *)
Fixpoint pathFrom (idx : nat) (t : list Sample) : list Cmd :=
  match t with
  | [] => []
  | pt :: t' =>
      let c := toCanvasCoords (ee_x pt) (ee_y pt) in
      (if Nat.eqb idx 0 then MoveTo (cx c) (cy c) else LineTo (cx c) (cy c))
        :: pathFrom (S idx) t'
  end.

(** [i === 0 ? "#3b82f6" : i === 1 ? "#10b981" : "#f59e0b"]. *)
Definition linkColour (i : nat) : string :=
  match i with
  | O => "#3b82f6"
  | S O => "#10b981"
  | _ => "#f59e0b"
  end.

(** The body of [for (let i = 0; i < points.length - 1; i++)], from
    index [i] on; [points] are the entries from [points[i]] on. *)
Fixpoint linksFrom (i : nat) (points : list Point2D) : list Cmd :=
  match points with
  | a :: ((b :: _) as rest) =>
      let p1 := toCanvasCoords (px a) (py a) in
      let p2 := toCanvasCoords (px b) (py b) in
      [ StrokeStyle (linkColour i);
        BeginPath; MoveTo (cx p1) (cy p1); LineTo (cx p2) (cy p2); Stroke;
        FillStyle "#ffffff"; StrokeStyle "#475569"; LineWidth 2;
        BeginPath; Arc (cx p1) (cy p1) 6 0 (PI * 2); Fill; Stroke ]
      ++ linksFrom (S i) rest
  | _ => []
  end.

(** [drawCanvas(angles)] in the render whose state is [u]; [ctx] tells
    whether the canvas and its 2D context are there. *)
Definition drawCanvas (ctx : bool) (u : UI) (angles : Angles) : list Cmd :=
  if negb ctx then []
  else
    [ ClearRect 0 0 CANVAS_WIDTH CANVAS_HEIGHT;
      GlobalAlpha (match hoverFrame u with Some _ => 6 / 10 | None => 1 end);
      StrokeStyle "#f8fafc"; LineWidth 1 ]
    ++ gridLines 600 0
    ++ [ StrokeStyle "#e2e8f0";
         BeginPath; MoveTo BASE_X 0; LineTo BASE_X CANVAS_HEIGHT; Stroke;
         BeginPath; MoveTo 0 BASE_Y; LineTo CANVAS_WIDTH BASE_Y; Stroke ]
    ++ (let maxReach := L1 u + L2 u + L3 u in
        [ BeginPath; Arc BASE_X BASE_Y maxReach 0 (PI * 2);
          FillStyle "rgba(59, 130, 246, 0.03)"; Fill;
          StrokeStyle "rgba(59, 130, 246, 0.2)"; SetLineDash [8; 8]; Stroke;
          SetLineDash [] ])
    ++ (if (0 <? List.length (trajectory u))%nat then
          [ BeginPath; StrokeStyle "#94a3b8"; SetLineDash [5; 5]; LineWidth 2 ]
          ++ pathFrom 0 (trajectory u)
          ++ [ Stroke; SetLineDash [] ]
        else [])
    ++ (match targetXY u with
        | Some t =>
            let c := toCanvasCoords (px t) (py t) in
            [ StrokeStyle "#ef4444"; LineWidth 2;
              BeginPath; MoveTo (cx c - 10) (cy c); LineTo (cx c + 10) (cy c);
              Stroke;
              BeginPath; MoveTo (cx c) (cy c - 10); LineTo (cx c) (cy c + 10);
              Stroke ]
        | None => []
        end)
    ++ (let points := getJointPositions angles (L1 u) (L2 u) (L3 u) in
        [ LineWidth 8; LineCap "round"; LineJoin "round" ]
        ++ linksFrom 0 points
        ++ (let ee := nth 3 points (mkPoint 0 0) in
            let c := toCanvasCoords (px ee) (py ee) in
            [ FillStyle "#ef4444";
              BeginPath; Arc (cx c) (cy c) 8 0 (PI * 2); Fill;
              GlobalAlpha 1 ])).

(** The draw effect:
    [if (!isAnimating || hoverFrame !== null) drawCanvas(displayAngles)]. *)
Definition drawEffect (ctx : bool) (u : UI) : option (list Cmd) :=
  if negb (isAnimating u)
     || match hoverFrame u with Some _ => true | None => false end
  then Some (drawCanvas ctx u (displayAngles u))
  else None.

(** ** What a command list paints

    The drawing state the commands of [drawCanvas] write, and the
    current path. *)
Record Pen : Type := mkPen {
  globalAlpha : R;
  strokeStyle : string;
  fillStyle : string;
  lineWidth : R;
  lineDash : list R }.

Inductive PathItem : Type :=
| Start (x y : R)            (* moveTo *)
| Line (x y : R)             (* lineTo *)
| Circle (x y radius : R).   (* arc over a full turn *)

Inductive Paint : Type :=
| Stroked (pen : Pen) (path : list PathItem)
| Filled (pen : Pen) (path : list PathItem)
| Cleared.

(** The pen after one command. *)
Definition setPen (pen : Pen) (c : Cmd) : Pen :=
  match c with
  | GlobalAlpha a =>
      mkPen a (strokeStyle pen) (fillStyle pen) (lineWidth pen) (lineDash pen)
  | StrokeStyle s =>
      mkPen (globalAlpha pen) s (fillStyle pen) (lineWidth pen) (lineDash pen)
  | FillStyle s =>
      mkPen (globalAlpha pen) (strokeStyle pen) s (lineWidth pen) (lineDash pen)
  | LineWidth w =>
      mkPen (globalAlpha pen) (strokeStyle pen) (fillStyle pen) w (lineDash pen)
  | SetLineDash d =>
      mkPen (globalAlpha pen) (strokeStyle pen) (fillStyle pen) (lineWidth pen) d
  | _ => pen
  end.

(** The current path after one command. *)
Definition extend (path : list PathItem) (c : Cmd) : list PathItem :=
  match c with
  | BeginPath => []
  | MoveTo x y => path ++ [Start x y]
  | LineTo x y => path ++ [Line x y]
  | Arc x y r _ _ => path ++ [Circle x y r]
  | _ => path
  end.

(** What the commands paint, in order, run from the pen [pen] and the
    current path [path]. *)
Fixpoint painted (pen : Pen) (path : list PathItem) (cs : list Cmd)
  : list Paint :=
  match cs with
  | [] => []
  | c :: cs' =>
      match c with
      | Stroke => [Stroked pen path]
      | Fill => [Filled pen path]
      | ClearRect _ _ _ _ => [Cleared]
      | _ => []
      end ++ painted (setPen pen c) (extend path c) cs'
  end.

(** The strokes whose colour is one of [colours]. *)
Definition strokesIn (colours : list string) (ps : list Paint)
  : list (Pen * list PathItem) :=
  flat_map (fun p =>
              match p with
              | Stroked pen path =>
                  if existsb (String.eqb (strokeStyle pen)) colours
                  then [(pen, path)]
                  else []
              | _ => []
              end) ps.

Definition linkColours : list string :=
  [linkColour 0; linkColour 1; linkColour 2].

(** A command that does not select one of [colours] for stroking. *)
Definition avoids (colours : list string) (c : Cmd) : bool :=
  match c with
  | StrokeStyle s => negb (existsb (String.eqb s) colours)
  | _ => true
  end.

(** The vertices [pathFrom] adds to the current path. *)
Fixpoint verticesFrom (idx : nat) (t : list Sample) : list PathItem :=
  match t with
  | [] => []
  | pt :: t' =>
      let c := toCanvasCoords (ee_x pt) (ee_y pt) in
      (if Nat.eqb idx 0 then Start (cx c) (cy c) else Line (cx c) (cy c))
        :: verticesFrom (S idx) t'
  end.

Definition alphaOf (p : Paint) : option R :=
  match p with
  | Stroked pen _ | Filled pen _ => Some (globalAlpha pen)
  | Cleared => None
  end.

Definition setsAlpha (c : Cmd) : bool :=
  match c with GlobalAlpha _ => true | _ => false end.

(** The canvas image of the joint position [i] of the pose drawn. *)
Definition jointOnCanvas (u : UI) (angles : Angles) (i : nat) : CanvasPoint :=
  let p := nth i (getJointPositions angles (L1 u) (L2 u) (L3 u))
               (mkPoint 0 0) in
  toCanvasCoords (px p) (py p).

(* ================================================================= *)
(** ** The proxy test button ([ProxyTestButton]) *)

(** [response], [loading] and the number of [fetch("/api/v1/ping")]
    calls not yet settled. *)
Record Ping : Type := mkPing { response : string; loading : bool; pings : nat }.

(** How the awaited ping can end. *)
Inductive PingOutcome : Type :=
| PingOk (message time : string)   (* [res.ok], body [{ message, time }] *)
| PingStatus (status : nat)        (* [!res.ok] *)
| PingThrown.                      (* [fetch] or [res.json()] rejected *)

Inductive PingEvent : Type :=
| Press
| Settled (r : PingOutcome).

Definition initialPing : Ping :=
  mkPing "Click the button to test" false 0.

(** The argument of [setResponse] on each path of [testProxy]. *)
Definition pingResponse (r : PingOutcome) : string :=
  match r with
  | PingOk message time =>
      (message ++ " (Time: " ++ time ++ ")")%string
  | PingStatus status =>
      ("Error: HTTP "
       ++ DecimalString.NilEmpty.string_of_uint (Nat.to_uint status))%string
  | PingThrown => "Failed to fetch. Check console for details."%string
  end.

(** [testProxy]: up to the [await] on [Press], which the button does
    not deliver while [disabled={loading}]; the rest, with its
    [finally], on [Settled]. *)
Definition pingStep (p : Ping) (e : PingEvent) : Ping :=
  match e with
  | Press =>
      if loading p then p
      else mkPing (response p) true (S (pings p))
  | Settled r =>
      match pings p with
      | O => p
      | S n => mkPing (pingResponse r) false n
      end
  end.

(* ================================================================= *)
(** ** Proof steps *)

(** Equality of lists of reals, or of rows of reals, entry by entry. *)
Ltac entrywise :=
  repeat match goal with
         | |- _ :: _ = _ :: _ => apply f_equal2
         | |- @eq (list _) [] [] => reflexivity
         | |- @eq R _ _ => ring
         end.

(** Facts about a concrete session: split the conjunction, run the
    machine. *)
Ltac by_running :=
  intros; repeat match goal with |- _ /\ _ => split end; reflexivity.

(** Splits a conjunction, and nothing else. *)
Ltac conjs := repeat match goal with |- _ /\ _ => split end.

(* ================================================================= *)
(** * Kinematics *)

Section Kinematics.

Variables l1 l2 l3 : R.

Lemma cos_turn (x : R) : cos (x + 2 * PI) = cos x.
Proof. rewrite cos_plus, cos_2PI, sin_2PI. ring. Qed.

Lemma sin_turn (x : R) : sin (x + 2 * PI) = sin x.
Proof. rewrite sin_plus, cos_2PI, sin_2PI. ring. Qed.

(** Round trip of the coordinate mapping. *)
Lemma toRobot_toCanvas (x y : R) :
  toRobotCoords (cx (toCanvasCoords x y)) (cy (toCanvasCoords x y))
  = mkPoint x y.
Proof. unfold toRobotCoords, toCanvasCoords; simpl. f_equal; ring. Qed.

(** The loop of [getJointPositions], run. *)
Lemma getJointPositions_unfold (qa qb qc : R) :
  getJointPositions (qa, qb, qc) l1 l2 l3 =
  [ mkPoint 0 0;
    mkPoint (l1 * cos qa) (l1 * sin qa);
    mkPoint (l1 * cos qa + l2 * cos (qa + qb))
            (l1 * sin qa + l2 * sin (qa + qb));
    mkPoint (l1 * cos qa + l2 * cos (qa + qb) + l3 * cos (qa + qb + qc))
            (l1 * sin qa + l2 * sin (qa + qb) + l3 * sin (qa + qb + qc)) ].
Proof.
  unfold getJointPositions; simpl.
  now rewrite !Rplus_0_l.
Qed.

(** C3.  For all joint angles and link lengths [getJointPositions]
    returns the four points of the cumulative-angle chain of the
    specification, the first of them is the base (0,0), and adding 2π
    to any single joint angle leaves all four points unchanged. *)
Theorem getJointPositions_chain (qa qb qc : R) :
  getJointPositions (qa, qb, qc) l1 l2 l3 = fkSpec (qa, qb, qc) l1 l2 l3
  /\ List.length (getJointPositions (qa, qb, qc) l1 l2 l3) = 4%nat
  /\ nth_error (getJointPositions (qa, qb, qc) l1 l2 l3) 0 = Some (mkPoint 0 0)
  /\ getJointPositions (qa + 2 * PI, qb, qc) l1 l2 l3
     = getJointPositions (qa, qb, qc) l1 l2 l3
  /\ getJointPositions (qa, qb + 2 * PI, qc) l1 l2 l3
     = getJointPositions (qa, qb, qc) l1 l2 l3
  /\ getJointPositions (qa, qb, qc + 2 * PI) l1 l2 l3
     = getJointPositions (qa, qb, qc) l1 l2 l3.
Proof.
  rewrite !getJointPositions_unfold.
  split; [ | split; [ reflexivity | split; [ reflexivity | ] ] ].
  - unfold fkSpec; simpl. now rewrite !Rplus_0_l.
  - replace (qa + (qb + 2 * PI)) with (qa + qb + 2 * PI) by ring.
    replace (qa + 2 * PI + qb) with (qa + qb + 2 * PI) by ring.
    replace (qa + qb + 2 * PI + qc) with (qa + qb + qc + 2 * PI) by ring.
    replace (qa + qb + (qc + 2 * PI)) with (qa + qb + qc + 2 * PI) by ring.
    rewrite !cos_turn, !sin_turn. repeat split.
Qed.

End Kinematics.

(** The specification's closed form of the Jacobian, entry by entry. *)
Lemma jacobianSpec_entries (L1 L2 L3 qa qb qc : R) :
  let J := jacobianSpec (qa, qb, qc) (lengthsOf L1 L2 L3) in
  [ [ J 0 0; J 0 1; J 0 2 ]; [ J 1 0; J 1 1; J 1 2 ] ]%nat
  = [ [ - (L1 * sin qa + (L2 * sin (qa + qb) + (L3 * sin (qa + qb + qc) + 0)));
        - (L2 * sin (qa + qb) + (L3 * sin (qa + qb + qc) + 0));
        - (L3 * sin (qa + qb + qc) + 0) ];
      [ L1 * cos qa + (L2 * cos (qa + qb) + (L3 * cos (qa + qb + qc) + 0));
        L2 * cos (qa + qb) + (L3 * cos (qa + qb + qc) + 0);
        L3 * cos (qa + qb + qc) + 0 ] ].
Proof. reflexivity. Qed.

(** C4.  For all joint angles and link lengths [getLiveJacobian] is the
    analytic 2x3 Jacobian of the specification,
    J[0][i] = -Σ_{k>=i} lengths[k]·sin θ_{k+1} and
    J[1][i] = Σ_{k>=i} lengths[k]·cos θ_{k+1}; at the angles (0,0,0) it
    is [[0, 0, 0], [l1+l2+l3, l2+l3, l3]]. *)
Theorem getLiveJacobian_analytic (L1 L2 L3 qa qb qc : R) :
  let J := jacobianSpec (qa, qb, qc) (lengthsOf L1 L2 L3) in
  getLiveJacobian L1 L2 L3 (qa, qb, qc)
  = [ [ J 0 0; J 0 1; J 0 2 ]; [ J 1 0; J 1 1; J 1 2 ] ]%nat
  /\ getLiveJacobian L1 L2 L3 (0, 0, 0)
     = [ [ 0; 0; 0 ]; [ L1 + L2 + L3; L2 + L3; L3 ] ].
Proof.
  split.
  - rewrite jacobianSpec_entries. unfold getLiveJacobian. entrywise.
  - unfold getLiveJacobian. rewrite !Rplus_0_l, sin_0, cos_0. entrywise.
Qed.

(* ================================================================= *)
(** * Reach clamping *)

Section Clamp.

Variable target : Point2D.

Lemma dist_nonneg : 0 <= dist target.
Proof. apply sqrt_pos. Qed.

Lemma dist_sqr : dist target * dist target = px target ^ 2 + py target ^ 2.
Proof. unfold dist. apply sqrt_sqrt. nra. Qed.

Lemma clamp_inside (m : R) : dist target <= m -> clamp target m = target.
Proof.
  intros H. unfold clamp.
  destruct (Rgt_dec (dist target) m) as [Hgt | _]; [ lra | reflexivity ].
Qed.

Lemma clamp_outside (m : R) :
  dist target > m ->
  clamp target m
  = mkPoint (px target / dist target * m) (py target / dist target * m).
Proof.
  intros H. unfold clamp.
  destruct (Rgt_dec (dist target) m) as [_ | Hn]; [ reflexivity | lra ].
Qed.

Lemma dist_scaled (m : R) :
  0 <= m -> 0 < dist target ->
  dist (mkPoint (px target / dist target * m) (py target / dist target * m))
  = m.
Proof.
  intros Hm Hd. unfold dist at 1. simpl px; simpl py.
  replace ((px target / dist target * m) ^ 2
           + (py target / dist target * m) ^ 2) with (m * m).
  - now apply sqrt_square.
  - transitivity ((px target ^ 2 + py target ^ 2) * (m / dist target) ^ 2).
    + rewrite <- dist_sqr. field. lra.
    + field. lra.
Qed.

End Clamp.

Lemma dist_base : dist (mkPoint 0 0) = 0.
Proof.
  unfold dist; simpl.
  replace (0 * (0 * 1) + 0 * (0 * 1)) with 0 by ring. apply sqrt_0.
Qed.

(** The ranges of the three length sliders keep the reach positive. *)
Lemma maxReach_sliders (a b c : R) :
  50 <= a <= 150 -> 50 <= b <= 150 -> 30 <= c <= 100 ->
  0 <= maxReach a b c.
Proof. unfold maxReach. lra. Qed.

(** C2.  Let m = L1 + L2 + L3 - 0.1 be the reach, not negative (as it is
    for every setting of the length sliders).  A target at distance
    d <= m from the base is returned unchanged, the base itself
    included; a target at distance d > m is moved to a point at
    distance exactly m, on the ray from the base through the target. *)
Theorem clamp_spec (target : Point2D) (L1 L2 L3 : R) :
  0 <= maxReach L1 L2 L3 ->
  let m := maxReach L1 L2 L3 in
  (dist target <= m -> clamp target m = target)
  /\ clamp (mkPoint 0 0) m = mkPoint 0 0
  /\ (dist target > m ->
      dist (clamp target m) = m
      /\ px (clamp target m) * py target = py (clamp target m) * px target
      /\ exists k, 0 <= k < 1
                   /\ px (clamp target m) = k * px target
                   /\ py (clamp target m) = k * py target).
Proof.
  intros Hm m. fold m in Hm. split; [ | split ].
  - apply clamp_inside.
  - apply clamp_inside. rewrite dist_base. exact Hm.
  - intros Hgt. pose proof (dist_nonneg target) as Hd.
    assert (Hpos : 0 < dist target) by lra.
    rewrite (clamp_outside _ _ Hgt). split; [ | split ].
    + now apply dist_scaled.
    + simpl. field. lra.
    + exists (m / dist target). split; [ | split ].
      * split.
        -- apply Rmult_le_pos; [ lra | ]. left. now apply Rinv_0_lt_compat.
        -- apply Rmult_lt_reg_r with (r := dist target); [ lra | ].
           unfold Rdiv. rewrite Rmult_assoc, Rinv_l by lra. lra.
      * simpl. field. lra.
      * simpl. field. lra.
Qed.

Lemma dist_300_400 : dist (mkPoint 300 400) = 500.
Proof.
  unfold dist; simpl.
  replace (300 * (300 * 1) + 400 * (400 * 1)) with (500 * 500) by ring.
  apply sqrt_square. lra.
Qed.

(** The scenario of the specification: a click at distance 500 with
    lengths summing to 240 lands at distance 239.9. *)
Lemma clamp_spec_witness :
  0 <= maxReach 100 80 60
  /\ dist (clamp (mkPoint 300 400) (maxReach 100 80 60)) = 2399 / 10.
Proof.
  assert (H : 0 <= maxReach 100 80 60) by (unfold maxReach; lra).
  split; [ exact H | ].
  destruct (clamp_spec (mkPoint 300 400) 100 80 60 H) as (_ & _ & Hout).
  destruct Hout as (Hd & _).
  - rewrite dist_300_400. unfold maxReach. lra.
  - rewrite Hd. unfold maxReach. lra.
Defined.

(* ================================================================= *)
(** * The effect and the event loop *)

Section EventLoop.

Lemma optZ_eqb_refl (a : option Z) : optZ_eqb a a = true.
Proof. destruct a as [z | ]; simpl; [ apply Z.eqb_refl | reflexivity ]. Qed.

(** The effect is left alone when none of its dependencies changed. *)
Lemma depsChanged_same (m m' : Machine) :
  isAnimating (ui m') = isAnimating (ui m) ->
  trajectoryRef m' = trajectoryRef m ->
  hoverFrame (ui m') = hoverFrame (ui m) ->
  depsChanged m m' = false.
Proof.
  intros Ha Ht Hh. unfold depsChanged.
  rewrite Ha, Ht, Hh, Bool.eqb_reflx, Nat.eqb_refl, optZ_eqb_refl.
  reflexivity.
Qed.

Lemma step_same_deps (m : Machine) (e : Event) :
  isAnimating (ui (handle e m)) = isAnimating (ui m) ->
  trajectoryRef (handle e m) = trajectoryRef m ->
  hoverFrame (ui (handle e m)) = hoverFrame (ui m) ->
  step m e = handle e m.
Proof.
  intros Ha Ht Hh. unfold step.
  now rewrite (depsChanged_same _ _ Ha Ht Hh).
Qed.

(** Neither the cleanup nor the effect body sets any state. *)
Lemma ui_runCleanup (m : Machine) : ui (runCleanup m) = ui m.
Proof.
  unfold runCleanup. destruct (cleanup m) as [l | ]; [ | reflexivity ].
  destruct (assoc l (loops m)); reflexivity.
Qed.

Lemma ui_runEffect (m : Machine) : ui (runEffect m) = ui m.
Proof.
  unfold runEffect.
  destruct (negb (isAnimating (ui m))
            || Nat.eqb (List.length (trajectory (ui m))) 0
            || match hoverFrame (ui m) with Some _ => true | None => false end);
    reflexivity.
Qed.

Lemma ui_step (m : Machine) (e : Event) : ui (step m e) = ui (handle e m).
Proof.
  unfold step. destruct (depsChanged m (handle e m)); [ | reflexivity ].
  now rewrite ui_runEffect, ui_runCleanup.
Qed.

(** The effect issues no request and drops none. *)
Lemma fetches_step (m : Machine) (e : Event) :
  fetches (step m e) = fetches (handle e m).
Proof.
  unfold step. destruct (depsChanged m (handle e m)); [ | reflexivity ].
  unfold runEffect, runCleanup.
  destruct (cleanup (handle e m)) as [l | ];
    [ destruct (assoc l (loops (handle e m))) | ]; simpl;
    match goal with
    | |- context [if ?b then _ else _] => destruct b
    end; reflexivity.
Qed.

(** The guard [if (isAnimating) return] of [handleCanvasClick]. *)
Lemma click_dropped (m : Machine) (rect : option (R * R)) (x y : R) :
  isAnimating (ui m) = true -> step m (Click rect x y) = m.
Proof.
  intros H.
  assert (Hh : handle (Click rect x y) m = m).
  { simpl. unfold handleCanvasClick. now rewrite H. }
  unfold step. rewrite Hh. now rewrite depsChanged_same.
Qed.

Lemma cleanup_runCleanup (m : Machine) : cleanup (runCleanup m) = None.
Proof.
  unfold runCleanup. destruct (cleanup m) as [l | ] eqn:E; [ | exact E ].
  destruct (assoc l (loops m)); reflexivity.
Qed.

(** The effect run after a hover-leave: a loop at frame 0 when the page
    is animating a trajectory that has samples, no loop otherwise. *)
Lemma hover_leave_restarts (m : Machine) (i : Z) :
  hoverFrame (ui m) = Some i ->
  activeFrameIndex (step m HoverLeave)
  = if isAnimating (ui m)
       && negb (Nat.eqb (List.length (trajectory (ui m))) 0)
    then Some 0%nat else None.
Proof.
  intros Hh. unfold step.
  assert (Hd : depsChanged m (handle HoverLeave m) = true).
  { unfold depsChanged; simpl. rewrite Hh; simpl. apply orb_true_r. }
  rewrite Hd. unfold runEffect.
  rewrite ui_runCleanup; simpl.
  destruct (isAnimating (ui m)); simpl;
    [ | unfold activeFrameIndex; now rewrite cleanup_runCleanup ].
  destruct (Nat.eqb (List.length (trajectory (ui m))) 0); simpl;
    [ unfold activeFrameIndex; now rewrite cleanup_runCleanup | ].
  unfold activeFrameIndex; simpl. now rewrite Nat.eqb_refl.
Qed.

Lemma assoc_reassoc {A : Type} (k : nat) (v v' : A) (l : list (nat * A)) :
  assoc k l = Some v -> assoc k (reassoc k v' l) = Some v'.
Proof.
  induction l as [ | [k0 v0] l IH]; simpl; [ discriminate | ].
  destruct (Nat.eqb k k0) eqn:E; simpl; rewrite E; auto.
Qed.

Lemma play_plus (a b : nat) (m : Machine) :
  play (a + b) m = play b (play a m).
Proof.
  revert m. induction a as [ | a IH]; intros m; simpl; [ reflexivity | ].
  destruct (nextCallback m) as [e | ] eqn:E; [ apply IH | ].
  destruct b; simpl; [ reflexivity | now rewrite E ].
Qed.

End EventLoop.

(* ================================================================= *)
(** * Uninterrupted playback *)

Section Playback.

Variable t : list Sample.

(** One period of the loop: the animation frame plays frame [k] and
    starts the 50 ms timer, the timer requests the next frame. *)
Lemma armed_tick (k l h : nat) (m : Machine) (point : Sample) :
  armed t k l h m ->
  nth_error t k = Some point ->
  armed t (S k) l (S (fresh m)) (play 2 m)
  /\ currentFrame (ui (play 2 m)) = k
  /\ currentAngles (ui (play 2 m)) = anglesOf point.
Proof.
  intros (Ha & Hh & Hc & Hl & Hf & Ht) Hp.
  assert (Hlt : (List.length t <=? k)%nat = false).
  { apply Nat.leb_gt. apply nth_error_Some. congruence. }
  destruct m as [u r ls c fs ts rq n]; simpl in *. subst fs ts c.
  unfold step; simpl. rewrite Nat.eqb_refl. unfold animate; simpl.
  rewrite Hl; simpl. rewrite Hlt, Hp.
  rewrite depsChanged_same by reflexivity.
  simpl. unfold step; simpl. rewrite Nat.eqb_refl. unfold rearm; simpl.
  rewrite (assoc_reassoc _ _ _ _ Hl).
  rewrite depsChanged_same by reflexivity.
  unfold armed; simpl. repeat split; auto.
  apply assoc_reassoc with (v := mkLoop t (S k) h).
  now apply assoc_reassoc with (v := mkLoop t k h).
Qed.

(** The animation frame that finds [frameIndex >= trajectory.length]
    clears [isAnimating], commits the last sample and requests
    nothing. *)
Lemma armed_finish (k l h : nat) (m : Machine) (finalPoint : Sample) :
  armed t k l h m ->
  (List.length t <= k)%nat ->
  nth_error t (List.length t - 1) = Some finalPoint ->
  status (ui (play 1 m)) = Idle
  /\ currentAngles (ui (play 1 m)) = anglesOf finalPoint
  /\ frames (play 1 m) = [] /\ timeouts (play 1 m) = []
  /\ nextCallback (play 1 m) = None.
Proof.
  intros (Ha & Hh & Hc & Hl & Hf & Ht) Hk Hp.
  apply Nat.leb_le in Hk.
  destruct m as [u r ls c fs ts rq n]; simpl in *. subst fs ts c.
  unfold step; simpl. rewrite Nat.eqb_refl. unfold animate; simpl.
  rewrite Hl; simpl. rewrite Hk, Hp.
  unfold depsChanged; simpl. rewrite Ha; simpl.
  unfold runCleanup; simpl. rewrite Hl.
  unfold runEffect; simpl. unfold status, nextCallback; simpl. rewrite Hh.
  repeat split; reflexivity.
Qed.

Lemma armed_plays (finalPoint : Sample) :
  nth_error t (List.length t - 1) = Some finalPoint ->
  forall (d k l h : nat) (m : Machine),
    armed t k l h m ->
    (k + d = List.length t)%nat ->
    let m' := play (2 * d + 1) m in
    status (ui m') = Idle
    /\ currentAngles (ui m') = anglesOf finalPoint
    /\ frames m' = [] /\ timeouts m' = []
    /\ nextCallback m' = None.
Proof.
  intros Hp d. induction d as [ | d IH]; intros k l h m Harmed Hk.
  - apply (armed_finish k l h); auto. lia.
  - destruct (nth_error t k) as [point | ] eqn:E.
    + destruct (armed_tick k l h m point Harmed E) as (Hnext & _).
      replace (2 * S d + 1)%nat with (2 + (2 * d + 1))%nat by lia.
      rewrite play_plus. apply (IH (S k) l (S (fresh m))); auto. lia.
    + apply nth_error_None in E. lia.
Qed.

End Playback.

(** A success response that arrives in an idle page with no pending
    callback starts a loop at frame 0. *)
Lemma response_arms (m : Machine) (h : nat) (rq : Request)
      (data : list RawSample) :
  assoc h (fetches m) = Some rq ->
  data <> [] ->
  isAnimating (ui m) = false -> hoverFrame (ui m) = None ->
  cleanup m = None -> frames m = [] -> timeouts m = [] ->
  armed (map (enrich (l1 rq) (l2 rq) (l3 rq)) data) 0
        (S (fresh m)) (S (S (fresh m)))
        (step m (Response h (Succeeded data))).
Proof.
  intros Hrq Hdata Ha Hh Hc Hf Ht.
  destruct data as [ | pt data]; [ congruence | ].
  unfold step; simpl. unfold handleResponse. rewrite Hrq.
  unfold depsChanged; simpl. rewrite Ha; simpl.
  unfold runCleanup; simpl. rewrite Hc.
  unfold runEffect; simpl. rewrite Hh, Hf, Ht.
  unfold armed; simpl. rewrite Nat.eqb_refl. repeat split; auto.
Qed.

(** Uninterrupted playback: when a success response with n >= 1 samples
    arrives in an idle page with no pending callback and nothing but
    the page's own callbacks happens afterwards, then after the n
    frames, their n timers and one more animation frame the status is
    Idle, the committed angles are those of the last sample, and no
    animation frame or timer is pending. *)
Lemma playback_completes (m : Machine) (h : nat) (rq : Request)
      (data : list RawSample) (last : RawSample) :
  assoc h (fetches m) = Some rq ->
  nth_error data (List.length data - 1) = Some last ->
  isAnimating (ui m) = false -> hoverFrame (ui m) = None ->
  cleanup m = None -> frames m = [] -> timeouts m = [] ->
  let m' := play (2 * List.length data + 1)
                 (step m (Response h (Succeeded data))) in
  status (ui m') = Idle
  /\ currentAngles (ui m') = (r_q1 last, r_q2 last, r_q3 last)
  /\ frames m' = [] /\ timeouts m' = []
  /\ nextCallback m' = None.
Proof.
  intros Hrq Hlast Ha Hh Hc Hf Ht.
  assert (Hdata : data <> []) by (intros ->; discriminate).
  pose proof (response_arms m h rq data Hrq Hdata Ha Hh Hc Hf Ht) as Harmed.
  set (t := map (enrich (l1 rq) (l2 rq) (l3 rq)) data) in *.
  assert (Hlen : List.length t = List.length data) by apply length_map.
  assert (Hfin : nth_error t (List.length t - 1)
                 = Some (enrich (l1 rq) (l2 rq) (l3 rq) last)).
  { rewrite Hlen. unfold t. rewrite nth_error_map, Hlast. reflexivity. }
  rewrite <- Hlen.
  apply (armed_plays t _ Hfin (List.length t) 0%nat _ _ _ Harmed).
  reflexivity.
Qed.

(** Fifty samples, as in the scenario of the specification: sample 49
    is committed. *)
Lemma playback_completes_50 :
  let data := map (fun i => mkRaw (INR i) (INR i) 0 0) (seq 0 50) in
  let m' := play 101 (run initial [clickAt; Response 1 (Succeeded data)]) in
  status (ui m') = Idle
  /\ currentAngles (ui m') = (49, 0, 0)
  /\ nextCallback m' = None.
Proof.
  intros data.
  assert (H : nth_error data 49 = Some (mkRaw (INR 49) (INR 49) 0 0))
    by reflexivity.
  destruct (playback_completes requested 1%nat
              (mkRequest homeAngles
                 (px (clamp (toRobotCoords (400 - 0) (300 - 0))
                            (maxReach 100 80 60)))
                 (py (clamp (toRobotCoords (400 - 0) (300 - 0))
                            (maxReach 100 80 60)))
                 (5 / 2) (5 / 100) 100 80 60)
              data (mkRaw (INR 49) (INR 49) 0 0))
    as (Hs & Hq & _ & _ & Hn); try reflexivity.
  simpl List.length in *. simpl r_q1 in *. simpl r_q2 in *. simpl r_q3 in *.
  change (run initial [clickAt; Response 1 (Succeeded data)])
    with (step requested (Response 1 (Succeeded data))).
  change (2 * 50 + 1)%nat with 101%nat in Hs, Hq, Hn.
  repeat split; auto.
  rewrite Hq. f_equal. f_equal.
  exact (eq_trans (INR_IZR_INZ 49) eq_refl).
Qed.

(* ================================================================= *)
(** * Scrubbing *)

(** C10.  When the hover frame has no sample in the trajectory (the
    index is negative or not below its length, which is every index
    when the trajectory is empty), [trajectory[hoverFrame]] is absent
    and the displayed angles are the committed [currentAngles]. *)
Theorem displayAngles_fallback (u : UI) (h : Z) :
  hoverFrame u = Some h ->
  (h < 0 \/ Z.of_nat (List.length (trajectory u)) <= h)%Z ->
  sampleAt (trajectory u) h = None
  /\ displayAngles u = currentAngles u.
Proof.
  intros Hh Hrange.
  assert (Hnone : sampleAt (trajectory u) h = None).
  { unfold sampleAt. destruct (h <? 0)%Z eqn:E; [ reflexivity | ].
    apply Z.ltb_ge in E. apply nth_error_None. lia. }
  split; [ exact Hnone | ].
  unfold displayAngles. now rewrite Hh, Hnone.
Qed.

Lemma displayAngles_fallback_witness :
  displayAngles (ui (step initial (HoverMove (Some 7%Z)))) = homeAngles.
Proof.
  apply (displayAngles_fallback
           (ui (step initial (HoverMove (Some 7%Z)))) 7%Z).
  - reflexivity.
  - right. simpl. lia.
Defined.

(** A hover event over a frame without a sample leaves the displayed
    pose at the committed angles. *)
Lemma hover_out_of_range (m : Machine) (i : Z) :
  sampleAt (trajectory (ui m)) i = None ->
  displayAngles (ui (step m (HoverMove (Some i)))) = currentAngles (ui m).
Proof.
  intros H. rewrite ui_step. simpl. unfold displayAngles; simpl.
  now rewrite H.
Qed.

(** C1, as the code has it.  In every state a hover event with a frame
    index makes the status Scrubbing and the displayed angles those of
    the hovered sample (the committed angles when there is none),
    without altering [currentFrame], [currentAngles], [trajectory] or
    [isAnimating]; on hover-leave the displayed angles are at once the
    committed [currentAngles], and [currentFrame] and [isAnimating] are
    as before the hover; the effect run on hover-leave starts its loop
    at frame 0 when the page is animating a trajectory with samples. *)
Theorem hover_scrubs_display (m : Machine) (i : Z) :
  let entered := step m (HoverMove (Some i)) in
  let released := step entered HoverLeave in
  status (ui entered) = Scrubbing
  /\ displayAngles (ui entered)
     = match sampleAt (trajectory (ui m)) i with
       | Some s => anglesOf s
       | None => currentAngles (ui m)
       end
  /\ currentFrame (ui entered) = currentFrame (ui m)
  /\ currentAngles (ui entered) = currentAngles (ui m)
  /\ trajectory (ui entered) = trajectory (ui m)
  /\ isAnimating (ui entered) = isAnimating (ui m)
  /\ displayAngles (ui released) = currentAngles (ui m)
  /\ currentFrame (ui released) = currentFrame (ui m)
  /\ isAnimating (ui released) = isAnimating (ui m)
  /\ activeFrameIndex released
     = if isAnimating (ui m)
          && negb (Nat.eqb (List.length (trajectory (ui m))) 0)
       then Some 0%nat else None.
Proof.
  intros entered released.
  assert (Hu : ui entered = setHoverFrame (Some i) (ui m))
    by (unfold entered; now rewrite ui_step).
  assert (Hl : ui released = setHoverFrame None (ui entered))
    by (unfold released; now rewrite ui_step).
  assert (Hr := hover_leave_restarts entered i).
  fold released in Hr. rewrite Hr by (now rewrite Hu).
  rewrite Hl, Hu. simpl.
  repeat match goal with |- _ /\ _ => split end; reflexivity.
Qed.

(** C1, as stated, fails.  With frames 0 and 1 played and frame 2 next,
    the pointer enters a chart and leaves it: the effect runs again and
    its loop starts at frame 0, so the next animation frame shows
    sample 0, not sample 2. *)
Lemma hover_restarts_playback :
  status (ui playing) = Animating
  /\ currentFrame (ui playing) = 1%nat
  /\ activeFrameIndex playing = Some 2%nat
  /\ status (ui resumed) = Animating
  /\ activeFrameIndex resumed = Some 0%nat
  /\ activeFrameIndex resumed <> activeFrameIndex playing
  /\ nextCallback resumed = Some (AnimationFrame 10)
  /\ currentFrame (ui (step resumed (AnimationFrame 10))) = 0%nat
  /\ displayAngles (ui (step resumed (AnimationFrame 10))) = (0, 0, 0)
  /\ option_map anglesOf (nth_error (trajectory (ui resumed)) 2)
     = Some (2, 0, 0).
Proof.
  assert (Hplaying : activeFrameIndex playing = Some 2%nat) by reflexivity.
  assert (Hresumed : activeFrameIndex resumed = Some 0%nat) by reflexivity.
  split; [ reflexivity | ]. split; [ reflexivity | ].
  split; [ exact Hplaying | ]. split; [ reflexivity | ].
  split; [ exact Hresumed | ].
  split; [ rewrite Hplaying, Hresumed; discriminate | ].
  by_running.
Qed.

(* ================================================================= *)
(** * Completion *)

(** C5 at the failing session [completed]: the loop that reaches the
    end of the trajectory sets the status to Idle and commits the last
    sample's angles (3,0,0), but the timer of the loop started on
    hover-leave is still pending, the cleanup having cancelled an
    animation frame that had already run; that timer then requests a
    frame which plays sample 2 over the committed pose and starts a
    further timer. *)
Theorem leaked_loop_ticks_after_idle :
  let later := run completed [TimerFired 16; AnimationFrame 18] in
  status (ui completed) = Idle
  /\ currentAngles (ui completed) = (3, 0, 0)
  /\ frames completed = []
  /\ timeouts completed = [(16, 10)]%nat
  /\ nextCallback completed = Some (TimerFired 16)
  /\ status (ui later) = Idle
  /\ currentFrame (ui later) = 2%nat
  /\ currentAngles (ui later) = (2, 0, 0)
  /\ timeouts later = [(19, 10)]%nat.
Proof. by_running. Qed.

(** The cleanup of a loop whose 50 ms timer is running cancels
    nothing: the handle in [frameId] is the one of the animation frame
    that has run. *)
Lemma cleanup_misses_timer (t : list Sample) (k : nat) (point : Sample)
      (l h : nat) (m : Machine) :
  armed t k l h m ->
  nth_error t k = Some point ->
  timeouts (runCleanup (play 1 m)) = [(fresh m, l)]
  /\ frames (runCleanup (play 1 m)) = [].
Proof.
  intros (Ha & Hh & Hc & Hl & Hf & Ht) Hp.
  assert (Hlt : (List.length t <=? k)%nat = false).
  { apply Nat.leb_gt. apply nth_error_Some. congruence. }
  destruct m as [u r ls c fs ts rq n]; simpl in *. subst fs ts c.
  unfold step; simpl. rewrite Nat.eqb_refl. unfold animate; simpl.
  rewrite Hl; simpl. rewrite Hlt, Hp.
  rewrite depsChanged_same by reflexivity.
  unfold runCleanup; simpl.
  rewrite (assoc_reassoc _ _ _ _ Hl). simpl. split; reflexivity.
Qed.

(* ================================================================= *)
(** * Reset *)

(** What Reset does in every state: home pose, empty trajectory, no
    target marker, no error, no hover frame; [isAnimating] is not
    written. *)
Lemma reset_clears (m : Machine) :
  let m' := step m Reset in
  currentAngles (ui m') = homeAngles
  /\ trajectory (ui m') = []
  /\ targetXY (ui m') = None
  /\ error (ui m') = None
  /\ hoverFrame (ui m') = None
  /\ isAnimating (ui m') = isAnimating (ui m).
Proof. intros m'. unfold m'. rewrite ui_step. repeat split; reflexivity. Qed.

Lemma reset_idle (m : Machine) :
  isAnimating (ui m) = false -> status (ui (step m Reset)) = Idle.
Proof. intros H. rewrite ui_step. unfold status; simpl. now rewrite H. Qed.

Lemma reset_animating (m : Machine) :
  isAnimating (ui m) = true -> status (ui (step m Reset)) = Animating.
Proof. intros H. rewrite ui_step. unfold status; simpl. now rewrite H. Qed.

(** Reset pressed while the loop waits in its 50 ms timer: the timer
    survives the cleanup and the loop goes on playing the trajectory
    that was cleared, over the home pose. *)
Lemma reset_during_timer_keeps_playing :
  let m := run started [AnimationFrame 4; Reset] in
  let m' := run m [TimerFired 5; AnimationFrame 7] in
  currentAngles (ui m) = homeAngles
  /\ trajectory (ui m) = []
  /\ timeouts m = [(5, 3)]%nat
  /\ status (ui m') = Animating
  /\ trajectory (ui m') = []
  /\ currentFrame (ui m') = 1%nat
  /\ currentAngles (ui m') = (1, 0, 0).
Proof. by_running. Qed.

(** C6 at the failing session: Reset pressed during playback resets the
    pose and clears the trajectory but leaves [isAnimating] set; the
    status stays "Executing Path...", no callback is pending that would
    clear the flag, and the next click is ignored. *)
Theorem reset_while_animating_stays_animating :
  let m := step playing Reset in
  status (ui playing) = Animating
  /\ status (ui m) = Animating
  /\ isAnimating (ui m) = true
  /\ trajectory (ui m) = []
  /\ currentAngles (ui m) = homeAngles
  /\ nextCallback m = None
  /\ step m clickAt = m.
Proof.
  intros m.
  repeat match goal with |- _ /\ _ => split; [ reflexivity | ] end.
  apply click_dropped. reflexivity.
Qed.

(* ================================================================= *)
(** * Clicks and responses *)

(** C7, as the code has it.  A click while [isAnimating] is set changes
    nothing: no request is issued and the whole page state is as
    before.  A click while [isAnimating] is clear (Idle, or Scrubbing
    over Idle) is accepted whether or not earlier requests are still
    pending: it sets the clamped target, clears the error and issues
    one more request for the committed angles. *)
Theorem click_ignored_while_animating (m : Machine) (x y : R) :
  (isAnimating (ui m) = true ->
   forall rect, step m (Click rect x y) = m)
  /\ (isAnimating (ui m) = false ->
      forall rectLeft rectTop,
        let m' := step m (Click (Some (rectLeft, rectTop)) x y) in
        let target :=
          clamp (toRobotCoords (x - rectLeft) (y - rectTop))
                (maxReach (L1 (ui m)) (L2 (ui m)) (L3 (ui m))) in
        exists rq,
          fetches m' = fetches m ++ [(fresh m, rq)]
          /\ current_angles rq = currentAngles (ui m)
          /\ target_x rq = px target /\ target_y rq = py target
          /\ targetXY (ui m') = Some target
          /\ error (ui m') = None
          /\ status (ui m') = status (ui m)).
Proof.
  split.
  - intros H rect. now apply click_dropped.
  - intros H rectLeft rectTop m' target. unfold m'.
    rewrite fetches_step, ui_step. simpl. unfold handleCanvasClick.
    rewrite H. simpl. eexists. split; [ reflexivity | ].
    unfold status; simpl. repeat split; reflexivity.
Qed.

Lemma click_ignored_while_animating_witness :
  isAnimating (ui playing) = true /\ step playing clickAt = playing.
Proof.
  assert (H : isAnimating (ui playing) = true) by reflexivity.
  split; [ exact H | ].
  exact (proj1 (click_ignored_while_animating playing 400 300) H
               (Some (0, 0))).
Defined.

(** C7, as stated, fails.  With the request 1 in flight and nothing
    animating, a second click is not ignored: it moves the target
    marker and issues the request 2 while request 1 is still pending. *)
Lemma click_accepted_while_request_pending :
  let m := step requested (Click (Some (0, 0)) 350 300) in
  status (ui requested) = Idle
  /\ map fst (fetches requested) = [1%nat]
  /\ map fst (fetches m) = [1%nat; 2%nat]
  /\ targetXY (ui m)
     = Some (clamp (toRobotCoords (350 - 0) (300 - 0)) (maxReach 100 80 60))
  /\ m <> requested.
Proof.
  intros m.
  assert (Hm : map fst (fetches m) = [1%nat; 2%nat]) by reflexivity.
  assert (Hr : map fst (fetches requested) = [1%nat]) by reflexivity.
  split; [ reflexivity | ]. split; [ exact Hr | ]. split; [ exact Hm | ].
  split; [ reflexivity | ].
  intros E. rewrite E, Hr in Hm. discriminate.
Qed.

(** C8, as the code has it.  The response to a pending request is
    applied when it arrives, whatever happened since the request was
    sent.  It never changes the committed angles; a successful one
    replaces the trajectory by its enriched samples, sets the frame to
    0 and [isAnimating]; a failed one sets the error message and clears
    the target marker, leaving the trajectory and [isAnimating] as they
    are. *)
Theorem response_applied_on_arrival (m : Machine) (h : nat) (rq : Request)
        (r : Outcome) :
  assoc h (fetches m) = Some rq ->
  let m' := step m (Response h r) in
  currentAngles (ui m') = currentAngles (ui m)
  /\ match r with
     | Succeeded data =>
         trajectory (ui m') = map (enrich (l1 rq) (l2 rq) (l3 rq)) data
         /\ currentFrame (ui m') = 0%nat
         /\ isAnimating (ui m') = true
     | _ =>
         error (ui m') = failureMessage r
         /\ targetXY (ui m') = None
         /\ trajectory (ui m') = trajectory (ui m)
         /\ isAnimating (ui m') = isAnimating (ui m)
     end.
Proof.
  intros Hrq m'. unfold m'. rewrite ui_step. simpl.
  unfold handleResponse. rewrite Hrq.
  destruct r; simpl; repeat split; reflexivity.
Qed.

Lemma response_applied_on_arrival_witness :
  map anglesOf
      (trajectory (ui (step superseded
                            (Response 1 (Succeeded [rawA; rawB; rawC])))))
  = [(0, 0, 0); (1, 0, 0); (2, 0, 0)].
Proof.
  destruct (response_applied_on_arrival
              superseded 1%nat
              (mkRequest homeAngles
                 (px (clamp (toRobotCoords (400 - 0) (300 - 0))
                            (maxReach 100 80 60)))
                 (py (clamp (toRobotCoords (400 - 0) (300 - 0))
                            (maxReach 100 80 60)))
                 (5 / 2) (5 / 100) 100 80 60)
              (Succeeded [rawA; rawB; rawC]) eq_refl) as (_ & Ht & _).
  rewrite Ht. reflexivity.
Defined.

(** C8, as stated, fails.  Reset is pressed while the request 1 is in
    flight; the page is idle with an empty trajectory.  The response
    then arrives and is applied: the trajectory holds its three
    samples, the status is Animating and an animation frame is
    requested.  Had the request failed instead, its message would be
    shown. *)
Lemma stale_response_applied_after_reset :
  let m := step superseded (Response 1 (Succeeded [rawA; rawB; rawC])) in
  let m' := step superseded (Response 1 (Thrown "Failed to fetch"%string)) in
  status (ui superseded) = Idle
  /\ trajectory (ui superseded) = []
  /\ map fst (fetches superseded) = [1%nat]
  /\ status (ui m) = Animating
  /\ map anglesOf (trajectory (ui m)) = [(0, 0, 0); (1, 0, 0); (2, 0, 0)]
  /\ nextCallback m = Some (AnimationFrame 5)
  /\ error (ui m') = Some "Failed to fetch"%string.
Proof. by_running. Qed.

(** What the [catch] block does to the page, for a failure with the
    message [msg]. *)
Lemma failure_handled (m : Machine) (h : nat) (rq : Request) (r : Outcome)
      (msg : string) :
  assoc h (fetches m) = Some rq ->
  failureMessage r = Some msg ->
  step m (Response h r)
  = mkMachine (setTargetXY None (setError (Some msg) (ui m)))
              (trajectoryRef m) (loops m) (cleanup m) (frames m)
              (timeouts m) (unassoc h (fetches m)) (fresh m).
Proof.
  intros Hrq Hmsg.
  assert (Hh : handle (Response h r) m
               = mkMachine (setTargetXY None (setError (Some msg) (ui m)))
                           (trajectoryRef m) (loops m) (cleanup m) (frames m)
                           (timeouts m) (unassoc h (fetches m)) (fresh m)).
  { simpl. unfold handleResponse. rewrite Hrq.
    destruct r; simpl in Hmsg; [ discriminate | | ];
      injection Hmsg as ->; reflexivity. }
  rewrite <- Hh. apply step_same_deps; rewrite Hh; reflexivity.
Qed.

(** A failure that arrives in a page that is not animating leaves it
    not animating. *)
Lemma failure_in_idle_page (m : Machine) (h : nat) (rq : Request)
      (r : Outcome) (msg : string) :
  assoc h (fetches m) = Some rq ->
  failureMessage r = Some msg ->
  isAnimating (ui m) = false ->
  isAnimating (ui (step m (Response h r))) = false
  /\ status (ui (step m (Response h r))) = status (ui m).
Proof.
  intros Hrq Hmsg Ha. rewrite (failure_handled m h rq r msg Hrq Hmsg).
  unfold status; simpl. auto.
Qed.

(** C9, as the code has it.  When the response to a pending request is
    a failure, the [catch] block leaves the playback state as it finds
    it: [isAnimating], the hover frame and so the status, the current
    frame, the committed angles and the trajectory are untouched (the
    page stays Idle when it is Idle, and stays Animating when another
    request's playback is running).  The target marker is cleared.  The
    error is the response's [detail], or "Failed to generate
    trajectory" when the detail is missing or empty, for a non-success
    response, and the banner shows it; it is the thrown error's message
    otherwise, and the banner shows it when it is not empty.  No
    request is added to the pending ones (no retry) and no callback is
    scheduled. *)
Theorem failed_request_leaves_playback (m : Machine) (h : nat)
        (rq : Request) (r : Outcome) :
  assoc h (fetches m) = Some rq ->
  (forall data, r <> Succeeded data) ->
  let m' := step m (Response h r) in
  isAnimating (ui m') = isAnimating (ui m)
  /\ hoverFrame (ui m') = hoverFrame (ui m)
  /\ status (ui m') = status (ui m)
  /\ currentFrame (ui m') = currentFrame (ui m)
  /\ currentAngles (ui m') = currentAngles (ui m)
  /\ trajectory (ui m') = trajectory (ui m)
  /\ targetXY (ui m') = None
  /\ match r with
     | Succeeded _ => True
     | NotOk detail =>
         error (ui m')
         = Some (match detail with
                 | Some EmptyString | None => "Failed to generate trajectory"
                 | Some d => d
                 end)%string
         /\ bannerShown (ui m') = true
     | Thrown message =>
         error (ui m') = Some message
         /\ bannerShown (ui m') = negb (String.eqb message "")
     end
  /\ fetches m' = unassoc h (fetches m)
  /\ frames m' = frames m
  /\ timeouts m' = timeouts m
  /\ loops m' = loops m.
Proof.
  intros Hrq Hfail m'.
  assert (Hmsg : exists msg, failureMessage r = Some msg).
  { destruct r as [data | detail | message]; simpl; eauto.
    now destruct (Hfail data). }
  destruct Hmsg as [msg Hmsg].
  unfold m'. rewrite (failure_handled m h rq r msg Hrq Hmsg).
  unfold status, bannerShown; simpl.
  conjs; try reflexivity.
  destruct r as [data | detail | message]; [ exact I | | ];
    simpl in Hmsg; injection Hmsg as <-.
  - destruct detail as [[ | a d] | ]; split; reflexivity.
  - destruct message; split; reflexivity.
Qed.

Lemma failed_request_leaves_playback_witness :
  let m' := step overlapped
                 (Response 2 (NotOk (Some "Target unreachable"%string))) in
  status (ui m') = status (ui overlapped)
  /\ currentAngles (ui m') = currentAngles (ui overlapped)
  /\ targetXY (ui m') = None
  /\ error (ui m') = Some "Target unreachable"%string
  /\ bannerShown (ui m') = true
  /\ fetches m' = [].
Proof.
  intros m'.
  assert (Hfail : forall data,
             NotOk (Some "Target unreachable"%string) <> Succeeded data)
    by discriminate.
  destruct (failed_request_leaves_playback
              overlapped 2%nat
              (mkRequest homeAngles
                 (px (clamp (toRobotCoords (350 - 0) (300 - 0))
                            (maxReach 100 80 60)))
                 (py (clamp (toRobotCoords (350 - 0) (300 - 0))
                            (maxReach 100 80 60)))
                 (5 / 2) (5 / 100) 100 80 60)
              (NotOk (Some "Target unreachable"%string)) eq_refl Hfail)
    as (_ & _ & Hs & _ & Hq & _ & Ht & [He Hb] & Hf & _).
  fold m' in Hs, Hq, Ht, He, Hb, Hf.
  conjs; assumption.
Defined.

(** C9, as stated, fails.  Two clicks are made before any response;
    request 1 succeeds and its playback runs when request 2 fails.  The
    error is shown and the target marker cleared, but the page is and
    stays Animating, with the loop's animation frame pending: the
    [catch] block does not write [isAnimating]. *)
Lemma failure_during_playback_stays_animating :
  let m' := step overlapped
                 (Response 2 (NotOk (Some "Target unreachable"%string))) in
  map fst (fetches overlapped) = [2%nat]
  /\ status (ui overlapped) = Animating
  /\ status (ui m') = Animating
  /\ status (ui m') <> Idle
  /\ error (ui m') = Some "Target unreachable"%string
  /\ targetXY (ui m') = None
  /\ nextCallback m' = nextCallback overlapped
  /\ nextCallback m' <> None.
Proof.
  intros m'.
  assert (Hs : status (ui m') = Animating) by reflexivity.
  assert (Hn : nextCallback m' = nextCallback overlapped) by reflexivity.
  assert (Ho : nextCallback overlapped = Some (AnimationFrame 5))
    by reflexivity.
  split; [ reflexivity | ]. split; [ reflexivity | ].
  split; [ exact Hs | ]. split; [ rewrite Hs; discriminate | ].
  split; [ reflexivity | ]. split; [ reflexivity | ].
  split; [ exact Hn | ]. rewrite Hn, Ho. discriminate.
Qed.

(* ================================================================= *)
(** * More on the geometry *)

(** X1.  The two coordinate mappings are inverse to each other, and the
    base of the arm is the centre of the canvas. *)
Theorem coords_round_trip (x y : R) :
  toRobotCoords (cx (toCanvasCoords x y)) (cy (toCanvasCoords x y))
  = mkPoint x y
  /\ toCanvasCoords (px (toRobotCoords x y)) (py (toRobotCoords x y))
     = mkCanvas x y
  /\ toCanvasCoords 0 0 = mkCanvas 300 300.
Proof.
  unfold toRobotCoords, toCanvasCoords, BASE_X, BASE_Y, CANVAS_WIDTH,
    CANVAS_HEIGHT; simpl.
  conjs; f_equal; field.
Qed.

Lemma point_eta (p : Point2D) : mkPoint (px p) (py p) = p.
Proof. now destruct p. Qed.

Lemma endEffector_unfold (qa qb qc l1 l2 l3 : R) :
  endEffector (qa, qb, qc) l1 l2 l3
  = mkPoint (l1 * cos qa + l2 * cos (qa + qb) + l3 * cos (qa + qb + qc))
            (l1 * sin qa + l2 * sin (qa + qb) + l3 * sin (qa + qb + qc)).
Proof. unfold endEffector. now rewrite getJointPositions_unfold. Qed.

(** A link of length [l] at the absolute angle [a]. *)
Lemma dist_polar (l a : R) : dist (mkPoint (l * cos a) (l * sin a)) = Rabs l.
Proof.
  unfold dist; simpl.
  replace (l * cos a * (l * cos a * 1) + l * sin a * (l * sin a * 1))
    with (Rsqr l * (Rsqr (sin a) + Rsqr (cos a))) by (unfold Rsqr; ring).
  rewrite sin2_cos2, Rmult_1_r. apply sqrt_Rsqr_abs.
Qed.

Lemma dist_triangle (x1 y1 x2 y2 : R) :
  dist (mkPoint (x1 + x2) (y1 + y2))
  <= dist (mkPoint x1 y1) + dist (mkPoint x2 y2).
Proof.
  pose proof (dist_nonneg (mkPoint x1 y1)) as H1.
  pose proof (dist_nonneg (mkPoint x2 y2)) as H2.
  pose proof (dist_sqr (mkPoint x1 y1)) as S1.
  pose proof (dist_sqr (mkPoint x2 y2)) as S2.
  simpl in S1, S2.
  set (d1 := dist (mkPoint x1 y1)) in *.
  set (d2 := dist (mkPoint x2 y2)) in *.
  assert (Hcs : x1 * x2 + y1 * y2 <= d1 * d2).
  { destruct (Rle_dec (x1 * x2 + y1 * y2) 0) as [Hn | Hp].
    - apply Rle_trans with 0; [ exact Hn | now apply Rmult_le_pos ].
    - apply Rnot_le_lt in Hp.
      apply Rsqr_incr_0_var; [ | now apply Rmult_le_pos ].
      unfold Rsqr.
      replace (d1 * d2 * (d1 * d2)) with ((d1 * d1) * (d2 * d2)) by ring.
      rewrite S1, S2.
      pose proof (Rle_0_sqr (x1 * y2 - y1 * x2)) as Hsq. unfold Rsqr in Hsq.
      simpl. lra. }
  unfold dist at 1; simpl.
  rewrite <- (sqrt_square (d1 + d2)) by lra.
  apply sqrt_le_1_alt. simpl in S1, S2. nra.
Qed.

(** X2.  Whatever the angles, each link is drawn with its own length:
    consecutive joint positions are [|l1|], [|l2|] and [|l3|] apart. *)
Theorem links_keep_length (qa qb qc l1 l2 l3 : R) :
  let P i := nth i (getJointPositions (qa, qb, qc) l1 l2 l3) (mkPoint 0 0) in
  dist (between (P 0%nat) (P 1%nat)) = Rabs l1
  /\ dist (between (P 1%nat) (P 2%nat)) = Rabs l2
  /\ dist (between (P 2%nat) (P 3%nat)) = Rabs l3.
Proof.
  intros P. unfold P. rewrite getJointPositions_unfold.
  unfold between; cbn [nth px py]. conjs.
  - rewrite !Rminus_0_r. apply dist_polar.
  - replace (l1 * cos qa + l2 * cos (qa + qb) - l1 * cos qa)
      with (l2 * cos (qa + qb)) by ring.
    replace (l1 * sin qa + l2 * sin (qa + qb) - l1 * sin qa)
      with (l2 * sin (qa + qb)) by ring.
    apply dist_polar.
  - replace (l1 * cos qa + l2 * cos (qa + qb) + l3 * cos (qa + qb + qc)
             - (l1 * cos qa + l2 * cos (qa + qb)))
      with (l3 * cos (qa + qb + qc)) by ring.
    replace (l1 * sin qa + l2 * sin (qa + qb) + l3 * sin (qa + qb + qc)
             - (l1 * sin qa + l2 * sin (qa + qb)))
      with (l3 * sin (qa + qb + qc)) by ring.
    apply dist_polar.
Qed.

(** X3.  With lengths that are not negative, every joint position and
    the end effector lie within the distance l1 + l2 + l3 of the base,
    the radius of the reach circle [drawCanvas] draws; the stretched
    arm (q2 = q3 = 0) reaches that circle. *)
Theorem arm_within_reach (qa qb qc l1 l2 l3 : R) :
  0 <= l1 -> 0 <= l2 -> 0 <= l3 ->
  Forall (fun p => dist p <= l1 + l2 + l3)
         (getJointPositions (qa, qb, qc) l1 l2 l3)
  /\ dist (endEffector (qa, 0, 0) l1 l2 l3) = l1 + l2 + l3.
Proof.
  intros H1 H2 H3. split.
  - rewrite getJointPositions_unfold.
    pose proof (dist_polar l1 qa) as D1.
    pose proof (dist_polar l2 (qa + qb)) as D2.
    pose proof (dist_polar l3 (qa + qb + qc)) as D3.
    rewrite Rabs_pos_eq in D1, D2, D3 by assumption.
    pose proof (dist_triangle (l1 * cos qa) (l1 * sin qa)
                  (l2 * cos (qa + qb)) (l2 * sin (qa + qb))) as T2.
    pose proof (dist_triangle (l1 * cos qa + l2 * cos (qa + qb))
                  (l1 * sin qa + l2 * sin (qa + qb))
                  (l3 * cos (qa + qb + qc)) (l3 * sin (qa + qb + qc))) as T3.
    repeat (constructor; [ try rewrite dist_base; lra | ]). constructor.
  - rewrite endEffector_unfold, !Rplus_0_r.
    replace (l1 * cos qa + l2 * cos qa + l3 * cos qa)
      with ((l1 + l2 + l3) * cos qa) by ring.
    replace (l1 * sin qa + l2 * sin qa + l3 * sin qa)
      with ((l1 + l2 + l3) * sin qa) by ring.
    rewrite dist_polar. apply Rabs_pos_eq. lra.
Qed.

Lemma arm_within_reach_witness :
  dist (endEffector (PI / 4, 0, 0) 100 80 60) = 100 + 80 + 60.
Proof.
  apply (arm_within_reach (PI / 4) 0 0 100 80 60); lra.
Defined.

(** X4.  The columns of the live Jacobian are read off the joint
    positions: column i is the vector from joint i to the end effector,
    turned by a quarter turn. *)
Theorem jacobian_columns_from_positions (L1 L2 L3 qa qb qc : R) (i : nat) :
  (i < 3)%nat ->
  let J := entryOf (getLiveJacobian L1 L2 L3 (qa, qb, qc)) in
  let p := nth i (getJointPositions (qa, qb, qc) L1 L2 L3) (mkPoint 0 0) in
  let ee := endEffector (qa, qb, qc) L1 L2 L3 in
  J 0%nat i = - py (between p ee) /\ J 1%nat i = px (between p ee).
Proof.
  intros Hi J p ee. unfold J, p, ee.
  rewrite endEffector_unfold, getJointPositions_unfold.
  unfold entryOf, getLiveJacobian, between.
  destruct i as [ | [ | [ | i ] ] ]; [ | | | lia ]; simpl; split; ring.
Qed.

Lemma jacobian_columns_from_positions_witness :
  entryOf (getLiveJacobian 100 80 60 homeAngles) 1 2
  = px (between (nth 2 (getJointPositions homeAngles 100 80 60) (mkPoint 0 0))
                (endEffector homeAngles 100 80 60)).
Proof.
  apply (jacobian_columns_from_positions 100 80 60 (PI / 4) (- PI / 4)
           (- PI / 4) 2). lia.
Defined.

(** Derivatives of the terms of the chain. *)
Lemma lim_cos_shift (l c a : R) :
  derivable_pt_lim (fun x => l * cos (x + c)) a (- l * sin (a + c)).
Proof.
  assert (H : derivable_pt_lim
                (mult_real_fct l (comp cos (plus_fct id (fct_cte c)))) a
                (l * (- sin (a + c) * (1 + 0)))).
  { apply derivable_pt_lim_scal.
    apply (derivable_pt_lim_comp (plus_fct id (fct_cte c)) cos).
    - apply derivable_pt_lim_plus;
        [ apply derivable_pt_lim_id | apply derivable_pt_lim_const ].
    - apply derivable_pt_lim_cos. }
  replace (- l * sin (a + c)) with (l * (- sin (a + c) * (1 + 0))) by ring.
  exact H.
Qed.

Lemma lim_sin_shift (l c a : R) :
  derivable_pt_lim (fun x => l * sin (x + c)) a (l * cos (a + c)).
Proof.
  assert (H : derivable_pt_lim
                (mult_real_fct l (comp sin (plus_fct id (fct_cte c)))) a
                (l * (cos (a + c) * (1 + 0)))).
  { apply derivable_pt_lim_scal.
    apply (derivable_pt_lim_comp (plus_fct id (fct_cte c)) sin).
    - apply derivable_pt_lim_plus;
        [ apply derivable_pt_lim_id | apply derivable_pt_lim_const ].
    - apply derivable_pt_lim_sin. }
  replace (l * cos (a + c)) with (l * (cos (a + c) * (1 + 0))) by ring.
  exact H.
Qed.

Lemma lim_ext (f g : R -> R) (a l : R) :
  (forall x, f x = g x) -> derivable_pt_lim f a l -> derivable_pt_lim g a l.
Proof.
  intros E H eps Heps. destruct (H eps Heps) as [d Hd]. exists d.
  intros h Hh Hlt. rewrite <- !E. now apply Hd.
Qed.

Lemma lim_cos3 (k a1 c1 a2 c2 a3 c3 x0 : R) :
  derivable_pt_lim
    (fun x => k + a1 * cos (x + c1) + a2 * cos (x + c2) + a3 * cos (x + c3)) x0
    (- a1 * sin (x0 + c1) - a2 * sin (x0 + c2) - a3 * sin (x0 + c3)).
Proof.
  pose proof (derivable_pt_lim_plus _ _ _ _ _
               (derivable_pt_lim_plus _ _ _ _ _
                 (derivable_pt_lim_plus _ _ _ _ _
                    (derivable_pt_lim_const k x0) (lim_cos_shift a1 c1 x0))
                 (lim_cos_shift a2 c2 x0))
               (lim_cos_shift a3 c3 x0)) as H.
  replace (- a1 * sin (x0 + c1) - a2 * sin (x0 + c2) - a3 * sin (x0 + c3))
    with (0 + - a1 * sin (x0 + c1) + - a2 * sin (x0 + c2)
          + - a3 * sin (x0 + c3)) by ring.
  exact H.
Qed.

Lemma lim_sin3 (k a1 c1 a2 c2 a3 c3 x0 : R) :
  derivable_pt_lim
    (fun x => k + a1 * sin (x + c1) + a2 * sin (x + c2) + a3 * sin (x + c3)) x0
    (a1 * cos (x0 + c1) + a2 * cos (x0 + c2) + a3 * cos (x0 + c3)).
Proof.
  pose proof (derivable_pt_lim_plus _ _ _ _ _
               (derivable_pt_lim_plus _ _ _ _ _
                 (derivable_pt_lim_plus _ _ _ _ _
                    (derivable_pt_lim_const k x0) (lim_sin_shift a1 c1 x0))
                 (lim_sin_shift a2 c2 x0))
               (lim_sin_shift a3 c3 x0)) as H.
  replace (a1 * cos (x0 + c1) + a2 * cos (x0 + c2) + a3 * cos (x0 + c3))
    with (0 + a1 * cos (x0 + c1) + a2 * cos (x0 + c2)
          + a3 * cos (x0 + c3)) by ring.
  exact H.
Qed.

(** X5.  The live Jacobian is the Jacobian of the forward kinematics:
    its entry in row 0 (row 1) and column i is the derivative of the
    end effector's x (y) with respect to the joint angle i, the other
    two angles held. *)
Theorem jacobian_is_derivative (L1 L2 L3 qa qb qc : R) :
  let J := entryOf (getLiveJacobian L1 L2 L3 (qa, qb, qc)) in
  derivable_pt_lim (fun x => px (endEffector (x, qb, qc) L1 L2 L3)) qa (J 0 0)%nat
  /\ derivable_pt_lim (fun x => px (endEffector (qa, x, qc) L1 L2 L3)) qb (J 0 1)%nat
  /\ derivable_pt_lim (fun x => px (endEffector (qa, qb, x) L1 L2 L3)) qc (J 0 2)%nat
  /\ derivable_pt_lim (fun x => py (endEffector (x, qb, qc) L1 L2 L3)) qa (J 1 0)%nat
  /\ derivable_pt_lim (fun x => py (endEffector (qa, x, qc) L1 L2 L3)) qb (J 1 1)%nat
  /\ derivable_pt_lim (fun x => py (endEffector (qa, qb, x) L1 L2 L3)) qc (J 1 2)%nat.
Proof.
  intros J. unfold J, entryOf, getLiveJacobian; cbn [nth].
  repeat match goal with |- _ /\ _ => split end.
  - apply lim_ext with (f := fun x => 0 + L1 * cos (x + 0) + L2 * cos (x + qb) + L3 * cos (x + (qb + qc))).
    + intros x. cbv beta. rewrite endEffector_unfold; simpl.
      rewrite Rplus_0_r, Rplus_0_l, <- Rplus_assoc. reflexivity.
    + replace (- L1 * sin qa - L2 * sin (qa + qb) - L3 * sin (qa + qb + qc))
        with (- L1 * sin (qa + 0) - L2 * sin (qa + qb) - L3 * sin (qa + (qb + qc)))
        by (rewrite Rplus_0_r, <- Rplus_assoc; reflexivity).
      apply lim_cos3.
  - apply lim_ext with (f := fun x => L1 * cos qa + L2 * cos (x + qa) + L3 * cos (x + (qa + qc)) + 0 * cos (x + 0)).
    + intros x. cbv beta. rewrite endEffector_unfold; simpl.
      replace (x + qa) with (qa + x) by ring.
      replace (qa + x + (qa + qc)) with (qa + x + qa + qc) by ring.
      replace (x + (qa + qc)) with (qa + x + qc) by ring. ring.
    + replace (- L2 * sin (qa + qb) - L3 * sin (qa + qb + qc))
        with (- L2 * sin (qb + qa) - L3 * sin (qb + (qa + qc)) - 0 * sin (qb + 0)).
      * apply lim_cos3.
      * replace (qb + qa) with (qa + qb) by ring.
        replace (qb + (qa + qc)) with (qa + qb + qc) by ring. ring.
  - apply lim_ext with (f := fun x => L1 * cos qa + L2 * cos (qa + qb) + L3 * cos (x + (qa + qb)) + 0 * cos (x + 0) + 0 * cos (x + 0)).
    + intros x. cbv beta. rewrite endEffector_unfold; simpl.
      replace (x + (qa + qb)) with (qa + qb + x) by ring. ring.
    + replace (- L3 * sin (qa + qb + qc))
        with (- L3 * sin (qc + (qa + qb)) - 0 * sin (qc + 0) - 0 * sin (qc + 0)).
      * apply (lim_cos3 (L1 * cos qa + L2 * cos (qa + qb))).
      * replace (qc + (qa + qb)) with (qa + qb + qc) by ring. ring.
  - apply lim_ext with (f := fun x => 0 + L1 * sin (x + 0) + L2 * sin (x + qb) + L3 * sin (x + (qb + qc))).
    + intros x. cbv beta. rewrite endEffector_unfold; simpl.
      rewrite Rplus_0_r, Rplus_0_l, <- Rplus_assoc. reflexivity.
    + replace (L1 * cos qa + L2 * cos (qa + qb) + L3 * cos (qa + qb + qc))
        with (L1 * cos (qa + 0) + L2 * cos (qa + qb) + L3 * cos (qa + (qb + qc)))
        by (rewrite Rplus_0_r, <- Rplus_assoc; reflexivity).
      apply lim_sin3.
  - apply lim_ext with (f := fun x => L1 * sin qa + L2 * sin (x + qa) + L3 * sin (x + (qa + qc)) + 0 * sin (x + 0)).
    + intros x. cbv beta. rewrite endEffector_unfold; simpl.
      replace (x + qa) with (qa + x) by ring.
      replace (x + (qa + qc)) with (qa + x + qc) by ring. ring.
    + replace (L2 * cos (qa + qb) + L3 * cos (qa + qb + qc))
        with (L2 * cos (qb + qa) + L3 * cos (qb + (qa + qc)) + 0 * cos (qb + 0)).
      * apply lim_sin3.
      * replace (qb + qa) with (qa + qb) by ring.
        replace (qb + (qa + qc)) with (qa + qb + qc) by ring. ring.
  - apply lim_ext with (f := fun x => L1 * sin qa + L2 * sin (qa + qb) + L3 * sin (x + (qa + qb)) + 0 * sin (x + 0) + 0 * sin (x + 0)).
    + intros x. cbv beta. rewrite endEffector_unfold; simpl.
      replace (x + (qa + qb)) with (qa + qb + x) by ring. ring.
    + replace (L3 * cos (qa + qb + qc))
        with (L3 * cos (qc + (qa + qb)) + 0 * cos (qc + 0) + 0 * cos (qc + 0)).
      * apply (lim_sin3 (L1 * sin qa + L2 * sin (qa + qb))).
      * replace (qc + (qa + qb)) with (qa + qb + qc) by ring. ring.
Qed.

(** X6.  When the second and third joint are straight or folded back
    (sin q2 = sin q3 = 0) the arm is singular: any two columns of the
    live Jacobian are parallel, which the function still computes. *)
Theorem jacobian_singular_when_aligned (L1 L2 L3 qa qb qc : R) (i j : nat) :
  sin qb = 0 -> sin qc = 0 ->
  let J := entryOf (getLiveJacobian L1 L2 L3 (qa, qb, qc)) in
  J 0%nat i * J 1%nat j - J 0%nat j * J 1%nat i = 0.
Proof.
  intros Hb Hc J. unfold J, entryOf, getLiveJacobian.
  destruct i as [ | [ | [ | i ] ] ]; destruct j as [ | [ | [ | j ] ] ];
    simpl; try ring; try destruct i; try destruct j; try ring;
    rewrite ?sin_plus, ?cos_plus, ?sin_plus, ?cos_plus, Hb, Hc; ring.
Qed.

Lemma jacobian_singular_when_aligned_witness :
  entryOf (getLiveJacobian 100 80 60 (1, 0, PI)) 0 0
  * entryOf (getLiveJacobian 100 80 60 (1, 0, PI)) 1 2
  - entryOf (getLiveJacobian 100 80 60 (1, 0, PI)) 0 2
    * entryOf (getLiveJacobian 100 80 60 (1, 0, PI)) 1 0 = 0.
Proof.
  exact (jacobian_singular_when_aligned 100 80 60 1 0 PI 0 2 sin_0 sin_PI).
Defined.

Lemma clamp_bound (t : Point2D) (m : R) : 0 <= m -> dist (clamp t m) <= m.
Proof.
  intros Hm. destruct (Rle_dec (dist t) m) as [Hle | Hgt].
  - now rewrite clamp_inside.
  - apply Rnot_le_gt in Hgt. rewrite (clamp_outside _ _ Hgt).
    pose proof (dist_nonneg t). right. apply dist_scaled; lra.
Qed.

(** X7.  For a reach that is not negative the clamped target is never
    farther from the base than the reach, and clamping it again changes
    nothing. *)
Theorem clamp_within_reach (t : Point2D) (m : R) :
  0 <= m ->
  dist (clamp t m) <= m
  /\ clamp (clamp t m) m = clamp t m.
Proof.
  intros Hm. pose proof (clamp_bound t m Hm) as H.
  split; [ exact H | now apply clamp_inside ].
Qed.

Lemma clamp_within_reach_witness :
  dist (clamp (mkPoint 300 400) (maxReach 100 80 60)) <= maxReach 100 80 60.
Proof.
  apply (clamp_within_reach (mkPoint 300 400) (maxReach 100 80 60)).
  unfold maxReach. lra.
Defined.

(* ================================================================= *)
(** * More on the page *)

Lemma frames_runCleanup_nil (m : Machine) :
  frames m = [] -> frames (runCleanup m) = [].
Proof.
  intros H. unfold runCleanup. destruct (cleanup m) as [l | ]; [ | exact H ].
  destruct (assoc l (loops m)); simpl; rewrite H; reflexivity.
Qed.

Lemma runCleanup_keeps (m : Machine) :
  timeouts (runCleanup m) = timeouts m /\ fetches (runCleanup m) = fetches m
  /\ fresh (runCleanup m) = fresh m /\ loops (runCleanup m) = loops m
  /\ trajectoryRef (runCleanup m) = trajectoryRef m.
Proof.
  unfold runCleanup. destruct (cleanup m) as [l | ]; [ | repeat split ].
  destruct (assoc l (loops m)); repeat split.
Qed.

Lemma runEffect_idle (m : Machine) :
  trajectory (ui m) = [] -> runEffect m = m.
Proof.
  intros H. unfold runEffect. rewrite H. simpl.
  now rewrite orb_true_r.
Qed.

Lemma stuck_step (m : Machine) (e : Event) : stuck m -> stuck (step m e).
Proof.
  intros (Ha & Ht & Hf & Hto & Hfe).
  assert (Hre : forall m', ui m' = ui (handle e m) ->
                           trajectory (ui (handle e m)) = [] ->
                           runEffect (runCleanup m') = runCleanup m').
  { intros m' Hu Hnil. apply runEffect_idle. now rewrite ui_runCleanup, Hu. }
  assert (Hgoal : stuck (handle e m) ->
                  stuck (step m e)).
  { intros (Ha' & Ht' & Hf' & Hto' & Hfe'). unfold step.
    destruct (depsChanged m (handle e m)); [ | repeat split; assumption ].
    rewrite (Hre (handle e m) eq_refl Ht').
    destruct (runCleanup_keeps (handle e m)) as (K1 & K2 & _).
    unfold stuck. rewrite ui_runCleanup, K1, K2.
    repeat split; auto using frames_runCleanup_nil. }
  apply Hgoal. unfold stuck.
  destruct e as [ rect clientX clientY | h r | i | | | v | v | v | v | h | h ];
    simpl.
  - unfold handleCanvasClick. rewrite Ha. repeat split; assumption.
  - unfold handleResponse. rewrite Hfe. simpl. repeat split; assumption.
  - destruct i; simpl; repeat split; assumption.
  - repeat split; assumption.
  - repeat split; assumption.
  - repeat split; assumption.
  - repeat split; assumption.
  - repeat split; assumption.
  - repeat split; assumption.
  - rewrite Hf. simpl. repeat split; assumption.
  - rewrite Hto. simpl. repeat split; assumption.
Qed.

(** X8.  A page that is animating with an empty trajectory and has no
    pending animation frame, timer or request stays so whatever happens
    next: clicks are dropped, Reset and hover start no loop, and the
    status never returns to Idle. *)
Theorem animating_without_trajectory_is_permanent (m : Machine)
        (es : list Event) :
  stuck m ->
  stuck (run m es)
  /\ status (ui (run m es)) <> Idle.
Proof.
  intros H.
  assert (Hs : stuck (run m es)).
  { revert m H. induction es as [ | e es IH]; intros m H; simpl; [ exact H | ].
    apply IH. now apply stuck_step. }
  split; [ exact Hs | ].
  destruct Hs as (Ha & _). unfold status. rewrite Ha.
  destruct (hoverFrame (ui (run m es))); discriminate.
Qed.

Lemma animating_without_trajectory_is_permanent_witness :
  status (ui (run (step playing Reset) [clickAt; Reset; HoverLeave])) <> Idle.
Proof.
  apply (animating_without_trajectory_is_permanent (step playing Reset)).
  unfold stuck. conjs; reflexivity.
Defined.

(** X9.  A successful response without samples, arriving when it is
    the only pending request and no callback is pending, leaves the page
    animating an empty trajectory with nothing pending. *)
Theorem empty_response_sticks (m : Machine) (h : nat) (rq : Request) :
  assoc h (fetches m) = Some rq ->
  unassoc h (fetches m) = [] ->
  frames m = [] -> timeouts m = [] ->
  stuck (step m (Response h (Succeeded []))).
Proof.
  intros Hrq Hun Hf Ht.
  assert (Hh : handle (Response h (Succeeded [])) m
               = mkMachine (setIsAnimating true
                              (setCurrentFrame 0 (setTrajectory [] (ui m))))
                           (fresh m) (loops m) (cleanup m) (frames m)
                           (timeouts m) [] (S (fresh m))).
  { simpl. unfold handleResponse. rewrite Hrq, Hun. reflexivity. }
  unfold step. rewrite Hh.
  match goal with |- stuck (if ?b then _ else _) => destruct b end.
  - rewrite runEffect_idle by (now rewrite ui_runCleanup).
    match goal with |- stuck (runCleanup ?x) =>
      destruct (runCleanup_keeps x) as (K1 & K2 & _);
      unfold stuck; rewrite ui_runCleanup, K1, K2 end.
    simpl. repeat split; auto. now apply frames_runCleanup_nil.
  - unfold stuck; simpl. repeat split; auto.
Qed.

Lemma empty_response_sticks_witness :
  stuck (step requested (Response 1 (Succeeded []))).
Proof.
  apply (empty_response_sticks
           requested 1%nat
           (mkRequest homeAngles
              (px (clamp (toRobotCoords (400 - 0) (300 - 0))
                         (maxReach 100 80 60)))
              (py (clamp (toRobotCoords (400 - 0) (300 - 0))
                         (maxReach 100 80 60)))
              (5 / 2) (5 / 100) 100 80 60));
    reflexivity.
Defined.

Lemma ui_animate_fields (l : nat) (m : Machine) :
  trajectory (ui (animate l m)) = trajectory (ui m)
  /\ hoverFrame (ui (animate l m)) = hoverFrame (ui m)
  /\ targetXY (ui (animate l m)) = targetXY (ui m)
  /\ error (ui (animate l m)) = error (ui m)
  /\ L1 (ui (animate l m)) = L1 (ui m)
  /\ L2 (ui (animate l m)) = L2 (ui m)
  /\ L3 (ui (animate l m)) = L3 (ui m)
  /\ duration (ui (animate l m)) = duration (ui m).
Proof.
  unfold animate. destruct (assoc l (loops m)) as [c | ]; [ | repeat split ].
  destruct (List.length (loopTrajectory c) <=? frameIndex c)%nat.
  - destruct (nth_error (loopTrajectory c) (List.length (loopTrajectory c) - 1));
      repeat split.
  - destruct (nth_error (loopTrajectory c) (frameIndex c)); repeat split.
Qed.

(** X10.  Which events write which state: the trajectory is replaced
    only by Reset and a successful response; the committed angles are
    written only by Reset and an animation frame; [isAnimating] only by
    an animation frame and a successful response; the hover frame only
    by Reset and the hover events; lengths and duration only by their
    sliders.  So hovering and clicking never change the trajectory or
    the committed angles. *)
Theorem state_writers (m : Machine) (e : Event) :
  let u := ui m in
  let u' := ui (step m e) in
  (trajectory u' = trajectory u
   \/ e = Reset \/ exists h data, e = Response h (Succeeded data))
  /\ (currentAngles u' = currentAngles u
      \/ e = Reset \/ exists h, e = AnimationFrame h)
  /\ (isAnimating u' = isAnimating u
      \/ (exists h, e = AnimationFrame h)
      \/ exists h data, e = Response h (Succeeded data))
  /\ (hoverFrame u' = hoverFrame u
      \/ e = Reset \/ e = HoverLeave \/ exists i, e = HoverMove i)
  /\ ((L1 u', L2 u', L3 u', duration u') = (L1 u, L2 u, L3 u, duration u)
      \/ exists v, e = ChangeL1 v \/ e = ChangeL2 v \/ e = ChangeL3 v
                   \/ e = ChangeDuration v).
Proof.
  cbv zeta. rewrite ui_step.
  destruct e as [ rect clientX clientY | h r | i | | | v | v | v | v | h | h ];
    simpl.
  - unfold handleCanvasClick. destruct (isAnimating (ui m)) eqn:E;
      [ | destruct rect as [[a b] | ] ]; simpl; conjs; auto.
  - unfold handleResponse. destruct (assoc h (fetches m)) as [rq | ];
      [ destruct r | ]; simpl; conjs; eauto 6.
  - destruct i; simpl; conjs; eauto 6.
  - conjs; auto.
  - conjs; auto.
  - conjs; eauto 7.
  - conjs; eauto 7.
  - conjs; eauto 7.
  - conjs; eauto 8.
  - destruct (assoc h (frames m)) as [l | ]; [ | conjs; eauto ].
    match goal with |- context [animate l ?x] =>
      destruct (ui_animate_fields l x) as (A1 & A2 & A3 & A4 & A5 & A6 & A7 & A8) end.
    simpl in *. rewrite A1, A2, A5, A6, A7, A8. conjs; eauto.
  - destruct (assoc h (timeouts m)) as [l | ]; [ | conjs; auto ].
    unfold rearm; simpl. destruct (assoc l (loops m)); simpl; conjs; auto.
Qed.

(** X11.  The only event that ends Animating is the animation frame of
    a loop whose frame index has reached the length of its trajectory:
    no click, response, hover, Reset, slider or timer clears
    [isAnimating]. *)
Theorem only_completion_ends_animating (m : Machine) (e : Event) :
  isAnimating (ui m) = true ->
  isAnimating (ui (step m e)) = false ->
  exists h l c,
    e = AnimationFrame h
    /\ assoc h (frames m) = Some l
    /\ assoc l (loops m) = Some c
    /\ (List.length (loopTrajectory c) <= frameIndex c)%nat.
Proof.
  intros Ha. rewrite ui_step.
  destruct e as [ rect clientX clientY | h r | i | | | v | v | v | v | h | h ];
    simpl.
  - unfold handleCanvasClick. rewrite Ha. congruence.
  - unfold handleResponse. destruct (assoc h (fetches m));
      [ destruct r | ]; simpl; congruence.
  - destruct i; simpl; congruence.
  - congruence.
  - congruence.
  - congruence.
  - congruence.
  - congruence.
  - congruence.
  - destruct (assoc h (frames m)) as [l | ] eqn:Ef; [ | congruence ].
    unfold animate; simpl.
    destruct (assoc l (loops m)) as [c | ] eqn:El; [ | simpl; congruence ].
    destruct (List.length (loopTrajectory c) <=? frameIndex c)%nat eqn:Eb.
    + intros _. exists h, l, c. apply Nat.leb_le in Eb. auto.
    + destruct (nth_error (loopTrajectory c) (frameIndex c)); simpl; congruence.
  - destruct (assoc h (timeouts m)) as [l | ]; [ | congruence ].
    unfold rearm; simpl. destruct (assoc l (loops m)); simpl; congruence.
Qed.

Lemma only_completion_ends_animating_witness :
  exists h l c,
    AnimationFrame 10 = AnimationFrame h
    /\ assoc h (frames (run playing [AnimationFrame 8; TimerFired 9]))
       = Some l
    /\ assoc l (loops (run playing [AnimationFrame 8; TimerFired 9]))
       = Some c
    /\ (List.length (loopTrajectory c) <= frameIndex c)%nat.
Proof.
  apply (only_completion_ends_animating
           (run playing [AnimationFrame 8; TimerFired 9]) (AnimationFrame 10));
    reflexivity.
Defined.

Section InOrder.

Variable t : list Sample.

Lemma armed_frame (k l h : nat) (m : Machine) (point : Sample) :
  armed t k l h m ->
  nth_error t k = Some point ->
  status (ui (play 1 m)) = Animating
  /\ currentFrame (ui (play 1 m)) = k
  /\ displayAngles (ui (play 1 m)) = anglesOf point.
Proof.
  intros (Ha & Hh & Hc & Hl & Hf & Ht) Hp.
  assert (Hlt : (List.length t <=? k)%nat = false).
  { apply Nat.leb_gt. apply nth_error_Some. congruence. }
  destruct m as [u r ls c fs ts rq n]; simpl in *. subst fs ts c.
  unfold step; simpl. rewrite Nat.eqb_refl. unfold animate; simpl.
  rewrite Hl; simpl. rewrite Hlt, Hp.
  rewrite depsChanged_same by reflexivity.
  unfold status, displayAngles; simpl. rewrite Hh, Ha. auto.
Qed.

Lemma armed_after (l : nat) (m : Machine) (k : nat) :
  (k <= List.length t)%nat ->
  forall h, armed t 0 l h m ->
  exists h', armed t k l h' (play (2 * k) m).
Proof.
  induction k as [ | k IH]; intros Hk h H0.
  - exists h. exact H0.
  - destruct (IH (Nat.lt_le_incl _ _ Hk) h H0) as [h' Hk'].
    destruct (nth_error t k) as [point | ] eqn:E;
      [ | apply nth_error_None in E; lia ].
    destruct (armed_tick t k l h' _ point Hk' E) as (Hnext & _).
    replace (2 * S k)%nat with (2 * k + 2)%nat by lia.
    rewrite play_plus. eauto.
Qed.

End InOrder.

(** X12.  Uninterrupted playback shows the samples in order: when a
    successful response arrives in an idle page with no pending
    callback and only the page's own callbacks run, then after 2k + 1
    of them the status is Animating, the current frame is k and the
    displayed angles are those of sample k of the response. *)
Theorem playback_shows_frames_in_order (m : Machine) (h : nat) (rq : Request)
        (data : list RawSample) (k : nat) (raw : RawSample) :
  assoc h (fetches m) = Some rq ->
  isAnimating (ui m) = false -> hoverFrame (ui m) = None ->
  cleanup m = None -> frames m = [] -> timeouts m = [] ->
  nth_error data k = Some raw ->
  let m' := play (2 * k + 1) (step m (Response h (Succeeded data))) in
  status (ui m') = Animating
  /\ currentFrame (ui m') = k
  /\ displayAngles (ui m') = (r_q1 raw, r_q2 raw, r_q3 raw).
Proof.
  intros Hrq Ha Hh Hc Hf Ht Hk m'.
  assert (Hdata : data <> []) by (intros ->; destruct k; discriminate).
  pose proof (response_arms m h rq data Hrq Hdata Ha Hh Hc Hf Ht) as H0.
  set (t := map (enrich (l1 rq) (l2 rq) (l3 rq)) data) in *.
  assert (Hp : nth_error t k = Some (enrich (l1 rq) (l2 rq) (l3 rq) raw)).
  { unfold t. now rewrite nth_error_map, Hk. }
  assert (Hle : (k <= List.length t)%nat).
  { apply Nat.lt_le_incl. apply nth_error_Some. congruence. }
  destruct (armed_after t _ _ k Hle _ H0) as [h' Hk'].
  unfold m'. rewrite play_plus.
  exact (armed_frame t k _ h' _ _ Hk' Hp).
Qed.

Lemma playback_shows_frames_in_order_witness :
  let m' := play 3 (step requested (Response 1 (Succeeded [rawA; rawB; rawC]))) in
  status (ui m') = Animating
  /\ currentFrame (ui m') = 1%nat
  /\ displayAngles (ui m') = (1, 0, 0).
Proof.
  exact (playback_shows_frames_in_order
           requested 1%nat
           (mkRequest homeAngles
              (px (clamp (toRobotCoords (400 - 0) (300 - 0))
                         (maxReach 100 80 60)))
              (py (clamp (toRobotCoords (400 - 0) (300 - 0))
                         (maxReach 100 80 60)))
              (5 / 2) (5 / 100) 100 80 60)
           [rawA; rawB; rawC] 1%nat rawB
           eq_refl eq_refl eq_refl eq_refl eq_refl eq_refl eq_refl).
Defined.

(** X13.  Uninterrupted playback ends: after the n frames of a response
    with n >= 1 samples, their n timers and one more animation frame
    the status is Idle, the committed angles are those of the last
    sample and no animation frame or timer is pending. *)
Theorem uninterrupted_playback_ends_idle (m : Machine) (h : nat)
        (rq : Request) (data : list RawSample) (last : RawSample) :
  assoc h (fetches m) = Some rq ->
  nth_error data (List.length data - 1) = Some last ->
  isAnimating (ui m) = false -> hoverFrame (ui m) = None ->
  cleanup m = None -> frames m = [] -> timeouts m = [] ->
  let m' := play (2 * List.length data + 1)
                 (step m (Response h (Succeeded data))) in
  status (ui m') = Idle
  /\ currentAngles (ui m') = (r_q1 last, r_q2 last, r_q3 last)
  /\ frames m' = [] /\ timeouts m' = [].
Proof.
  intros Hrq Hlast Ha Hh Hc Hf Ht m'.
  destruct (playback_completes m h rq data last Hrq Hlast Ha Hh Hc Hf Ht)
    as (H1 & H2 & H3 & H4 & _).
  conjs; assumption.
Qed.

Lemma uninterrupted_playback_ends_idle_witness :
  let m' := play 7 (step requested (Response 1 (Succeeded [rawA; rawB; rawC]))) in
  status (ui m') = Idle
  /\ currentAngles (ui m') = (2, 0, 0)
  /\ frames m' = [] /\ timeouts m' = [].
Proof.
  exact (uninterrupted_playback_ends_idle
           requested 1%nat
           (mkRequest homeAngles
              (px (clamp (toRobotCoords (400 - 0) (300 - 0))
                         (maxReach 100 80 60)))
              (py (clamp (toRobotCoords (400 - 0) (300 - 0))
                         (maxReach 100 80 60)))
              (5 / 2) (5 / 100) 100 80 60)
           [rawA; rawB; rawC] rawC
           eq_refl eq_refl eq_refl eq_refl eq_refl eq_refl eq_refl).
Defined.

Lemma Forall_unassoc {A : Type} (P : nat * A -> Prop) (k : nat)
      (l : list (nat * A)) :
  Forall P l -> Forall P (unassoc k l).
Proof.
  induction 1 as [ | [k' v] l Hx Hl IH]; simpl; [ constructor | ].
  destruct (Nat.eqb k k'); auto.
Qed.

Lemma animate_keeps (l : nat) (m : Machine) :
  fetches (animate l m) = fetches m /\ (fresh m <= fresh (animate l m))%nat.
Proof.
  unfold animate. destruct (assoc l (loops m)) as [c | ]; [ | auto ].
  destruct (List.length (loopTrajectory c) <=? frameIndex c)%nat.
  - destruct (nth_error (loopTrajectory c) (List.length (loopTrajectory c) - 1));
      auto.
  - destruct (nth_error (loopTrajectory c) (frameIndex c)); simpl; auto.
Qed.

Lemma rearm_keeps (l : nat) (m : Machine) :
  fetches (rearm l m) = fetches m /\ (fresh m <= fresh (rearm l m))%nat
  /\ ui (rearm l m) = ui m.
Proof.
  unfold rearm. destruct (assoc l (loops m)); simpl; auto.
Qed.

Lemma fresh_step (m : Machine) (e : Event) :
  (fresh (handle e m) <= fresh (step m e))%nat.
Proof.
  unfold step. destruct (depsChanged m (handle e m)); [ | lia ].
  destruct (runCleanup_keeps (handle e m)) as (_ & _ & K & _).
  unfold runEffect. rewrite ui_runCleanup.
  match goal with |- context [if ?b then _ else _] => destruct b end;
    simpl; lia.
Qed.

Lemma safe_step (m : Machine) (e : Event) :
  safe m -> sliderInRange e -> safe (step m e).
Proof.
  intros [Hl Hf] He. unfold safe. rewrite ui_step, fetches_step.
  destruct e as [ rect clientX clientY | h r | i | | | v | v | v | v | h | h ];
    simpl in *.
  - unfold handleCanvasClick. destruct (isAnimating (ui m)); [ now split | ].
    destruct rect as [[a b] | ]; [ | now split ]. simpl.
    split; [ exact Hl | ]. apply Forall_app. split; [ exact Hf | ].
    constructor; [ | constructor ]. split; simpl; [ exact Hl | ].
    rewrite point_eta.
    apply clamp_bound. destruct Hl as (? & ? & ?). unfold maxReach. lra.
  - unfold handleResponse. destruct (assoc h (fetches m));
      [ destruct r | ]; simpl; split; auto using Forall_unassoc.
  - destruct i; now split.
  - now split.
  - now split.
  - split; [ | exact Hf ]. destruct Hl as (? & ? & ?). repeat split; lra.
  - split; [ | exact Hf ]. destruct Hl as (? & ? & ?). repeat split; lra.
  - split; [ | exact Hf ]. destruct Hl as (? & ? & ?). repeat split; lra.
  - now split.
  - destruct (assoc h (frames m)) as [l | ]; [ | now split ].
    match goal with |- context [animate l ?x] =>
      destruct (ui_animate_fields l x) as (_ & _ & _ & _ & A5 & A6 & A7 & _);
      destruct (animate_keeps l x) as (F & _) end.
    rewrite A5, A6, A7, F. now split.
  - destruct (assoc h (timeouts m)) as [l | ]; [ | now split ].
    match goal with |- context [rearm l ?x] =>
      destruct (rearm_keeps l x) as (F & _ & U) end.
    rewrite U, F. now split.
Qed.

Lemma safe_initial : safe initial.
Proof.
  split; [ | constructor ]. unfold lengthsInRange; simpl. lra.
Qed.

Lemma safe_run (es : list Event) (m : Machine) :
  safe m -> Forall sliderInRange es -> safe (run m es).
Proof.
  revert m. induction es as [ | e es IH]; intros m Hm Hes; simpl; [ exact Hm | ].
  inversion Hes; subst. apply IH; [ now apply safe_step | assumption ].
Qed.

(** X14.  Whatever the user does, with the sliders inside their
    ranges, every request the page has pending carries link lengths
    inside the slider ranges and a target no farther from the base than
    l1 + l2 + l3 - 0.1 for those lengths. *)
Theorem requests_always_within_reach (es : list Event) (h : nat)
        (rq : Request) :
  Forall sliderInRange es ->
  In (h, rq) (fetches (run initial es)) ->
  lengthsInRange (l1 rq) (l2 rq) (l3 rq)
  /\ dist (mkPoint (target_x rq) (target_y rq))
     <= l1 rq + l2 rq + l3 rq - 1 / 10.
Proof.
  intros Hes Hin.
  destruct (safe_run es initial safe_initial Hes) as [_ Hf].
  rewrite Forall_forall in Hf. exact (Hf (h, rq) Hin).
Qed.

Lemma requests_always_within_reach_witness :
  dist (clamp (toRobotCoords (400 - 0) (300 - 0)) (maxReach 120 80 60))
  <= 120 + 80 + 60 - 1 / 10.
Proof.
  destruct (requests_always_within_reach
              [ChangeL1 120; clickAt] 1%nat
              (mkRequest homeAngles
                 (px (clamp (toRobotCoords (400 - 0) (300 - 0))
                            (maxReach 120 80 60)))
                 (py (clamp (toRobotCoords (400 - 0) (300 - 0))
                            (maxReach 120 80 60)))
                 (5 / 2) (5 / 100) 120 80 60)) as [_ H].
  - repeat constructor; simpl; lra.
  - left. reflexivity.
  - simpl in H. rewrite point_eta in H. exact H.
Defined.

Lemma handlesFresh_step (m : Machine) (e : Event) :
  handlesFresh m -> handlesFresh (step m e).
Proof.
  unfold handlesFresh. intros H. rewrite fetches_step.
  pose proof (fresh_step m e) as Hfresh.
  assert (Hweak : forall n l, (n <= fresh (step m e))%nat ->
                  Forall (fun hr : nat * Request => (fst hr < n)%nat) l ->
                  Forall (fun hr : nat * Request
                          => (fst hr < fresh (step m e))%nat) l).
  { intros n l Hn Hl. eapply Forall_impl; [ | exact Hl ]. simpl. intros; lia. }
  destruct e as [ rect clientX clientY | h r | i | | | v | v | v | v | h | h ];
    simpl in *.
  - unfold handleCanvasClick in *. destruct (isAnimating (ui m));
      [ apply (Hweak (fresh m)); auto | ].
    destruct rect as [[a b] | ]; [ | apply (Hweak (fresh m)); auto ].
    simpl in *. apply Forall_app. split; [ apply (Hweak (fresh m)); auto; lia | ].
    constructor; [ simpl; lia | constructor ].
  - unfold handleResponse in *. destruct (assoc h (fetches m));
      [ destruct r | ]; simpl in *;
      apply (Hweak (fresh m)); auto using Forall_unassoc; lia.
  - destruct i; apply (Hweak (fresh m)); auto.
  - apply (Hweak (fresh m)); auto.
  - apply (Hweak (fresh m)); auto. lia.
  - apply (Hweak (fresh m)); auto.
  - apply (Hweak (fresh m)); auto.
  - apply (Hweak (fresh m)); auto.
  - apply (Hweak (fresh m)); auto.
  - destruct (assoc h (frames m)) as [l | ];
      [ | apply (Hweak (fresh m)); auto ].
    match type of Hfresh with context [animate l ?x] =>
      destruct (animate_keeps l x) as (F & Hle) end.
    rewrite F. simpl in *. apply (Hweak (fresh m)); auto. lia.
  - destruct (assoc h (timeouts m)) as [l | ];
      [ | apply (Hweak (fresh m)); auto ].
    match type of Hfresh with context [rearm l ?x] =>
      destruct (rearm_keeps l x) as (F & Hle & _) end.
    rewrite F. simpl in *. apply (Hweak (fresh m)); auto. lia.
Qed.

Lemma handlesFresh_run (es : list Event) (m : Machine) :
  handlesFresh m -> handlesFresh (run m es).
Proof.
  revert m. induction es as [ | e es IH]; intros m Hm; simpl; [ exact Hm | ].
  apply IH. now apply handlesFresh_step.
Qed.

Lemma assoc_fresh {A : Type} (n : nat) (v : A) (l : list (nat * A)) :
  Forall (fun hr => (fst hr < n)%nat) l ->
  assoc n (l ++ [(n, v)]) = Some v.
Proof.
  induction 1 as [ | [k w] l Hk Hl IH]; simpl.
  - now rewrite Nat.eqb_refl.
  - simpl in Hk. destruct (Nat.eqb n k) eqn:E; [ | exact IH ].
    apply Nat.eqb_eq in E. lia.
Qed.

Lemma slider_keeps_fetches (m : Machine) (e : Event) :
  isSlider e = true -> fetches (step m e) = fetches m.
Proof.
  intros H. rewrite fetches_step. destruct e; try discriminate; reflexivity.
Qed.

Lemma sliders_keep_fetches (es : list Event) (m : Machine) :
  forallb isSlider es = true -> fetches (run m es) = fetches m.
Proof.
  revert m. induction es as [ | e es IH]; intros m H; simpl; [ reflexivity | ].
  simpl in H. apply andb_prop in H as [He Hes].
  rewrite (IH _ Hes). now apply slider_keeps_fetches.
Qed.

(** X15.  The link lengths of a trajectory are those of the click:
    whatever the sliders do between a click and its successful
    response, every stored sample's [ee_x], [ee_y] is the end effector
    of its angles for the lengths the page had when it was clicked. *)
Theorem lengths_frozen_at_request (es sliders : list Event)
        (rectLeft rectTop x y : R) (data : list RawSample) :
  let m := run initial es in
  isAnimating (ui m) = false ->
  forallb isSlider sliders = true ->
  let m' := run m (Click (Some (rectLeft, rectTop)) x y
                     :: sliders ++ [Response (fresh m) (Succeeded data)]) in
  trajectory (ui m')
  = map (enrich (L1 (ui m)) (L2 (ui m)) (L3 (ui m))) data
  /\ forall s, In s (trajectory (ui m')) ->
       mkPoint (ee_x s) (ee_y s)
       = endEffector (anglesOf s) (L1 (ui m)) (L2 (ui m)) (L3 (ui m)).
Proof.
  intros m Ha Hs m'.
  assert (Hfresh : handlesFresh m).
  { apply handlesFresh_run. constructor. }
  set (m1 := step m (Click (Some (rectLeft, rectTop)) x y)).
  assert (Hf1 : exists rq, assoc (fresh m) (fetches m1) = Some rq
                           /\ l1 rq = L1 (ui m) /\ l2 rq = L2 (ui m)
                           /\ l3 rq = L3 (ui m)).
  { unfold m1. rewrite fetches_step. simpl. unfold handleCanvasClick.
    rewrite Ha. simpl. eexists. split; [ now apply assoc_fresh | ].
    simpl. auto. }
  destruct Hf1 as (rq & Hrq & E1 & E2 & E3).
  assert (Ht : trajectory (ui m')
               = map (enrich (L1 (ui m)) (L2 (ui m)) (L3 (ui m))) data).
  { unfold m'. simpl. fold m1. unfold run. rewrite fold_left_app. simpl.
    fold (run m1 sliders). rewrite ui_step. simpl. unfold handleResponse.
    rewrite (sliders_keep_fetches sliders m1 Hs), Hrq. simpl.
    now rewrite E1, E2, E3. }
  split; [ exact Ht | ].
  intros s Hin. rewrite Ht in Hin. apply in_map_iff in Hin as (pt & <- & _).
  unfold enrich, endEffector, anglesOf; cbn [ee_x ee_y q1 q2 q3].
  apply point_eta.
Qed.

Lemma lengths_frozen_at_request_witness :
  trajectory (ui (run initial [clickAt; ChangeL1 150;
                               Response 1 (Succeeded [rawB])]))
  = map (enrich 100 80 60) [rawB].
Proof.
  exact (proj1 (lengths_frozen_at_request [] [ChangeL1 150] 0 0 400 300
                  [rawB] eq_refl eq_refl)).
Defined.

(* ================================================================= *)
(** * Drawing *)

(** The loop over the grid ends by its condition, after the twelve
    rounds i = 0, 50, ..., 550; the fuel beyond them is not used. *)
Lemma gridLines_fuel (n : nat) : gridLines (12 + n) 0 = gridLines 12 0.
Proof.
  assert (H : forall k, gridLines k 600 = []) by (intros [ | k]; reflexivity).
  cbn [gridLines Z.ltb Z.compare Pos.compare Pos.compare_cont Nat.add
       Z.add Pos.add Pos.succ Pos.add_carry app].
  now rewrite !H.
Qed.

Section Painting.

Lemma painted_app (a b : list Cmd) (pen : Pen) (path : list PathItem) :
  painted pen path (a ++ b)
  = painted pen path a
    ++ painted (fold_left setPen a pen) (fold_left extend a path) b.
Proof.
  revert pen path. induction a as [ | c a IH]; intros pen path; simpl;
    [ reflexivity | ].
  now rewrite IH, app_assoc.
Qed.

Lemma alpha_kept (cs : list Cmd) (pen : Pen) (path : list PathItem) :
  existsb setsAlpha cs = false ->
  globalAlpha (fold_left setPen cs pen) = globalAlpha pen
  /\ Forall (fun p => alphaOf p = None \/ alphaOf p = Some (globalAlpha pen))
            (painted pen path cs).
Proof.
  revert pen path. induction cs as [ | c cs IH]; intros pen path H; simpl.
  - split; [ reflexivity | constructor ].
  - simpl in H. apply orb_false_elim in H as [Hc Hcs].
    destruct (IH (setPen pen c) (extend path c) Hcs) as [IH1 IH2].
    assert (Ha : globalAlpha (setPen pen c) = globalAlpha pen)
      by (destruct c; try discriminate; reflexivity).
    rewrite Ha in IH1, IH2. split; [ exact IH1 | ].
    apply Forall_app. split; [ | exact IH2 ].
    destruct c; simpl; try (constructor; [ simpl; auto | ]); constructor.
Qed.

Lemma gridLines_no_alpha (fuel : nat) (i : Z) :
  existsb setsAlpha (gridLines fuel i) = false.
Proof.
  revert i. induction fuel as [ | fuel IH]; intros i; simpl; [ reflexivity | ].
  destruct (i <? 600)%Z; simpl; auto.
Qed.

Lemma pathFrom_no_alpha (idx : nat) (t : list Sample) :
  existsb setsAlpha (pathFrom idx t) = false.
Proof.
  revert idx. induction t as [ | pt t IH]; intros idx; simpl; [ reflexivity | ].
  destruct (Nat.eqb idx 0); simpl; auto.
Qed.

Lemma linksFrom_cons (i : nat) (a b : Point2D) (rest : list Point2D) :
  linksFrom i (a :: b :: rest)
  = (let p1 := toCanvasCoords (px a) (py a) in
     let p2 := toCanvasCoords (px b) (py b) in
     [ StrokeStyle (linkColour i);
       BeginPath; MoveTo (cx p1) (cy p1); LineTo (cx p2) (cy p2); Stroke;
       FillStyle "#ffffff"; StrokeStyle "#475569"; LineWidth 2;
       BeginPath; Arc (cx p1) (cy p1) 6 0 (PI * 2); Fill; Stroke ])
    ++ linksFrom (S i) (b :: rest).
Proof. reflexivity. Qed.

Lemma linksFrom_no_alpha (i : nat) (points : list Point2D) :
  existsb setsAlpha (linksFrom i points) = false.
Proof.
  revert i. induction points as [ | a points IH]; intros i;
    [ reflexivity | ].
  destruct points as [ | b rest]; [ reflexivity | ].
  rewrite linksFrom_cons, existsb_app, IH. reflexivity.
Qed.

End Painting.

(** [drawCanvas] sets the alpha once at the start and once at the
    end. *)
Lemma drawCanvas_shape (u : UI) (angles : Angles) :
  exists middle,
    drawCanvas true u angles
    = [ ClearRect 0 0 CANVAS_WIDTH CANVAS_HEIGHT;
        GlobalAlpha (match hoverFrame u with Some _ => 6 / 10 | None => 1 end) ]
      ++ middle ++ [GlobalAlpha 1]
    /\ existsb setsAlpha middle = false.
Proof.
  unfold drawCanvas. cbn [negb].
  set (grid := gridLines 600 0).
  set (links := linksFrom 0 _).
  set (history := if (0 <? List.length (trajectory u))%nat then _ else []).
  set (target := match targetXY u with Some _ => _ | None => _ end).
  match goal with
  | |- exists middle, [?c1; ?c2; ?c3; ?c4] ++ grid ++ ?axes ++ ?reach
                      ++ history ++ target ++ ?arm ++ links
                      ++ [?e1; ?e2; ?e3; ?e4; ?e5] = _ /\ _ =>
      exists ([c3; c4] ++ grid ++ axes ++ reach ++ history ++ target
              ++ arm ++ links ++ [e1; e2; e3; e4])
  end.
  split.
  - rewrite <- ?app_assoc. cbn [app]. rewrite <- ?app_assoc. cbn [app].
    reflexivity.
  - rewrite !existsb_app.
    unfold grid, links. rewrite gridLines_no_alpha, linksFrom_no_alpha.
    assert (Hh : existsb setsAlpha history = false).
    { unfold history. destruct (0 <? List.length (trajectory u))%nat;
        [ | reflexivity ].
      rewrite !existsb_app, pathFrom_no_alpha. reflexivity. }
    assert (Ht : existsb setsAlpha target = false).
    { unfold target. destruct (targetXY u); reflexivity. }
    rewrite Hh, Ht. reflexivity.
Qed.

(** X16.  Whatever the canvas state before, everything [drawCanvas]
    paints is painted with alpha 0.6 while a hover frame is set and
    with alpha 1 otherwise, and it leaves the alpha at 1; without a
    canvas context it paints nothing. *)
Theorem drawCanvas_dims_while_scrubbing (u : UI) (angles : Angles)
        (pen : Pen) (path : list PathItem) :
  let a := match hoverFrame u with Some _ => 6 / 10 | None => 1 end in
  Forall (fun p => alphaOf p = None \/ alphaOf p = Some a)
         (painted pen path (drawCanvas true u angles))
  /\ globalAlpha (fold_left setPen (drawCanvas true u angles) pen) = 1
  /\ painted pen path (drawCanvas false u angles) = [].
Proof.
  intros a. destruct (drawCanvas_shape u angles) as (middle & -> & Hm).
  fold a. split; [ | split; [ | reflexivity ] ].
  - rewrite painted_app. apply Forall_app. split.
    + repeat constructor.
    + rewrite painted_app. apply Forall_app. split.
      * simpl fold_left.
        match goal with |- Forall _ (painted ?p ?q middle) =>
          destruct (alpha_kept middle p q Hm) as [_ H] end.
        exact H.
      * simpl. constructor.
  - rewrite !fold_left_app. reflexivity.
Qed.

Section Strokes.

Variable colours : list string.

Lemma strokesIn_app (a b : list Paint) :
  strokesIn colours (a ++ b) = strokesIn colours a ++ strokesIn colours b.
Proof. apply flat_map_app. Qed.

Lemma no_strokesIn (cs : list Cmd) (pen : Pen) (path : list PathItem) :
  existsb (String.eqb (strokeStyle pen)) colours = false ->
  forallb (avoids colours) cs = true ->
  strokesIn colours (painted pen path cs) = []
  /\ existsb (String.eqb (strokeStyle (fold_left setPen cs pen))) colours
     = false.
Proof.
  revert pen path. induction cs as [ | c cs IH]; intros pen path Hp Hcs.
  - split; [ reflexivity | exact Hp ].
  - simpl in Hcs. apply andb_prop in Hcs as [Hc Hcs].
    assert (Hp' : existsb (String.eqb (strokeStyle (setPen pen c))) colours
                  = false).
    { destruct c; simpl; try exact Hp. simpl in Hc.
      now apply negb_true_iff in Hc. }
    destruct (IH (setPen pen c) (extend path c) Hp' Hcs) as [IH1 IH2].
    split; [ | exact IH2 ].
    cbn [painted]. rewrite strokesIn_app, IH1, app_nil_r.
    destruct c; simpl; try reflexivity. now rewrite Hp.
Qed.

Lemma gridLines_avoids (fuel : nat) (i : Z) :
  forallb (avoids colours) (gridLines fuel i) = true.
Proof.
  revert i. induction fuel as [ | fuel IH]; intros i; simpl; [ reflexivity | ].
  destruct (i <? 600)%Z; simpl; auto.
Qed.

Lemma pathFrom_avoids (idx : nat) (t : list Sample) :
  forallb (avoids colours) (pathFrom idx t) = true.
Proof.
  revert idx. induction t as [ | pt t IH]; intros idx; simpl; [ reflexivity | ].
  destruct (Nat.eqb idx 0); simpl; auto.
Qed.

End Strokes.

Lemma pathFrom_paints_nothing (idx : nat) (t : list Sample) (pen : Pen)
      (path : list PathItem) :
  painted pen path (pathFrom idx t) = []
  /\ fold_left setPen (pathFrom idx t) pen = pen
  /\ fold_left extend (pathFrom idx t) path = path ++ verticesFrom idx t.
Proof.
  revert idx path. induction t as [ | pt t IH]; intros idx path; simpl.
  - now rewrite app_nil_r.
  - destruct (IH (S idx) (extend path
        (if Nat.eqb idx 0
         then MoveTo (cx (toCanvasCoords (ee_x pt) (ee_y pt)))
                     (cy (toCanvasCoords (ee_x pt) (ee_y pt)))
         else LineTo (cx (toCanvasCoords (ee_x pt) (ee_y pt)))
                     (cy (toCanvasCoords (ee_x pt) (ee_y pt))))))
      as (I1 & I2 & I3).
    destruct (Nat.eqb idx 0); simpl in *; rewrite I1, I2, I3, <- app_assoc;
      auto.
Qed.

(** X17.  [drawCanvas] strokes exactly three segments in the link
    colours, from each joint to the next in canvas coordinates; the
    first with line width 8 and the other two with line width 2, the
    width set for the joint circles inside the loop being still in
    force. *)
Theorem drawCanvas_link_strokes (u : UI) (qa qb qc : R) (pen : Pen)
        (path : list PathItem) :
  let c := jointOnCanvas u (qa, qb, qc) in
  map (fun s => (strokeStyle (fst s), lineWidth (fst s), snd s))
      (strokesIn linkColours
                 (painted pen path (drawCanvas true u (qa, qb, qc))))
  = [ ("#3b82f6"%string, 8,
       [Start (cx (c 0%nat)) (cy (c 0%nat)); Line (cx (c 1%nat)) (cy (c 1%nat))]);
      ("#10b981"%string, 2,
       [Start (cx (c 1%nat)) (cy (c 1%nat)); Line (cx (c 2%nat)) (cy (c 2%nat))]);
      ("#f59e0b"%string, 2,
       [Start (cx (c 2%nat)) (cy (c 2%nat)); Line (cx (c 3%nat)) (cy (c 3%nat))]) ].
Proof.
  intros c. unfold c, jointOnCanvas, drawCanvas. cbn [negb].
  destruct (ex_intro (fun l => l = getJointPositions (qa, qb, qc) (L1 u) (L2 u) (L3 u)) _ eq_refl)
    as [points Hpoints].
  rewrite <- Hpoints. rewrite getJointPositions_unfold in Hpoints.
  match type of Hpoints with
  | _ = [?a0; ?a1; ?a2; ?a3] =>
      generalize a0 a1 a2 a3 Hpoints; clear Hpoints
  end.
  intros p0 p1 p2 p3 ->.
  set (grid := gridLines 600 0).
  set (history := if (0 <? List.length (trajectory u))%nat then _ else []).
  set (target := match targetXY u with Some _ => _ | None => _ end).
  match goal with
  | |- context [painted pen path
                  ([?c1; ?c2; ?c3; ?c4] ++ grid ++ ?axes ++ ?reach
                   ++ history ++ target ++ ?arm)] =>
      set (rest := [c4] ++ grid ++ axes ++ reach ++ history ++ target);
      set (armCmds := arm);
      replace ([c1; c2; c3; c4] ++ grid ++ axes ++ reach
               ++ history ++ target ++ armCmds)
        with ([c1; c2; c3] ++ rest ++ armCmds)
        by (unfold rest; rewrite <- ?app_assoc; reflexivity)
  end.
  assert (Hrest : forallb (avoids linkColours) rest = true).
  { unfold rest. rewrite !forallb_app. unfold grid.
    rewrite gridLines_avoids.
    assert (Hh : forallb (avoids linkColours) history = true).
    { unfold history. destruct (0 <? List.length (trajectory u))%nat;
        [ | reflexivity ].
      rewrite !forallb_app, pathFrom_avoids. reflexivity. }
    assert (Ht : forallb (avoids linkColours) target = true).
    { unfold target. destruct (targetXY u); reflexivity. }
    rewrite Hh, Ht. reflexivity. }
  rewrite painted_app. cbn [painted app setPen extend fold_left].
  rewrite painted_app.
  change (strokesIn ?cs (Cleared :: ?l)) with (strokesIn cs l).
  rewrite strokesIn_app.
  match goal with
  | |- context [strokesIn linkColours (painted ?p ?q rest)] =>
      destruct (no_strokesIn linkColours rest p q eq_refl Hrest) as [-> _]
  end.
  match goal with
  | |- context [painted ?p ?q armCmds] => generalize p q
  end.
  intros pen' path'. unfold armCmds. reflexivity.
Qed.

Lemma verticesFrom_later (idx : nat) (t : list Sample) :
  verticesFrom (S idx) t
  = map (fun s => let c := toCanvasCoords (ee_x s) (ee_y s) in
                  Line (cx c) (cy c)) t.
Proof.
  revert idx. induction t as [ | pt t IH]; intros idx; simpl;
    [ reflexivity | now rewrite IH ].
Qed.

(** X18.  [drawCanvas] strokes the history path in its own colour only
    when the trajectory has samples, and then once, dashed [5, 5] with
    width 2, from the stored end effector of sample 0 through those of
    all later samples in order. *)
Theorem drawCanvas_history_path (u : UI) (qa qb qc : R) (pen : Pen)
        (path : list PathItem) :
  map (fun s => (lineDash (fst s), lineWidth (fst s), snd s))
      (strokesIn ["#94a3b8"%string]
                 (painted pen path (drawCanvas true u (qa, qb, qc))))
  = match trajectory u with
    | [] => []
    | pt :: later =>
        [ ([5; 5], 2,
           (let c := toCanvasCoords (ee_x pt) (ee_y pt) in
            Start (cx c) (cy c))
             :: map (fun s => let c := toCanvasCoords (ee_x s) (ee_y s) in
                              Line (cx c) (cy c)) later) ]
    end.
Proof.
  unfold drawCanvas. cbn [negb].
  destruct (ex_intro (fun l => l = getJointPositions (qa, qb, qc)
                                      (L1 u) (L2 u) (L3 u)) _ eq_refl)
    as [points Hpoints].
  rewrite <- Hpoints. rewrite getJointPositions_unfold in Hpoints.
  match type of Hpoints with
  | _ = [?a0; ?a1; ?a2; ?a3] =>
      generalize a0 a1 a2 a3 Hpoints; clear Hpoints
  end.
  intros p0 p1 p2 p3 ->.
  set (grid := gridLines 600 0).
  set (history := if (0 <? List.length (trajectory u))%nat then _ else []).
  set (target := match targetXY u with Some _ => _ | None => _ end).
  match goal with
  | |- context [painted pen path
                  ([?c1; ?c2; ?c3; ?c4] ++ grid ++ ?axes ++ ?reach
                   ++ history ++ target ++ ?arm)] =>
      set (rest := [c4] ++ grid ++ axes ++ reach);
      set (post := target ++ arm);
      replace ([c1; c2; c3; c4] ++ grid ++ axes ++ reach
               ++ history ++ post)
        with ([c1; c2; c3] ++ rest ++ history ++ post)
        by (unfold rest, post; rewrite <- ?app_assoc; reflexivity)
  end.
  assert (Hrest : forallb (avoids ["#94a3b8"%string]) rest = true).
  { unfold rest. rewrite !forallb_app. unfold grid.
    rewrite gridLines_avoids. reflexivity. }
  assert (Hpost : forall pen' path',
             strokesIn ["#94a3b8"%string] (painted pen' path' post) = []).
  { intros pen' path'. unfold post, target.
    destruct (targetXY u); reflexivity. }
  clearbody rest post.
  rewrite painted_app. cbn [painted app setPen extend fold_left].
  change (strokesIn ?cs (Cleared :: ?l)) with (strokesIn cs l).
  rewrite painted_app, strokesIn_app.
  match goal with
  | |- context [strokesIn _ (painted ?p ?q rest)] =>
      pose proof (no_strokesIn ["#94a3b8"%string] rest p q eq_refl Hrest)
        as Hno
  end.
  destruct Hno as [Hno _]. rewrite Hno. clear Hno.
  match goal with
  | |- context [painted ?p ?q (history ++ post)] => generalize p q
  end.
  intros pen1 path1. rewrite painted_app, strokesIn_app.
  rewrite Hpost, app_nil_r. unfold history.
  destruct (trajectory u) as [ | pt later]; [ reflexivity | ].
  cbn [List.length Nat.ltb Nat.leb].
  rewrite painted_app. cbn [painted app setPen extend fold_left].
  rewrite painted_app.
  match goal with
  | |- context [pathFrom 0 ?t] =>
      match goal with
      | |- context [painted ?p ?q (pathFrom 0 t)] =>
          destruct (pathFrom_paints_nothing 0 t p q) as (-> & -> & ->)
      end
  end.
  cbn [app painted]. cbn [strokesIn flat_map strokeStyle existsb].
  cbn [verticesFrom Nat.eqb]. rewrite verticesFrom_later.
  reflexivity.
Qed.

(* ================================================================= *)
(** * Messages *)

(** X19.  A non-success response always shows the banner: the error is
    the response's [detail], or "Failed to generate trajectory" when
    the detail is missing or empty, and in either case not empty. *)
Theorem not_ok_shows_banner (m : Machine) (h : nat) (rq : Request)
        (detail : option string) :
  assoc h (fetches m) = Some rq ->
  let m' := step m (Response h (NotOk detail)) in
  bannerShown (ui m') = true
  /\ error (ui m')
     = Some (match detail with
             | Some EmptyString | None => "Failed to generate trajectory"
             | Some d => d
             end)%string.
Proof.
  intros Hrq m'. unfold m'. rewrite ui_step. simpl.
  unfold handleResponse. rewrite Hrq. unfold bannerShown; simpl.
  destruct detail as [[ | a d] | ]; split; reflexivity.
Qed.

Lemma not_ok_shows_banner_witness :
  error (ui (step requested (Response 1 (NotOk (Some ""%string)))))
  = Some "Failed to generate trajectory"%string.
Proof.
  exact (proj2 (not_ok_shows_banner
                  requested 1%nat
                  (mkRequest homeAngles
                     (px (clamp (toRobotCoords (400 - 0) (300 - 0))
                                (maxReach 100 80 60)))
                     (py (clamp (toRobotCoords (400 - 0) (300 - 0))
                                (maxReach 100 80 60)))
                     (5 / 2) (5 / 100) 100 80 60)
                  (Some ""%string) eq_refl)).
Defined.

(* ================================================================= *)
(** * The proxy test button *)

Lemma pingStep_keeps (p : Ping) (e : PingEvent) :
  (loading p = true /\ pings p = 1%nat)
  \/ (loading p = false /\ pings p = 0%nat) ->
  (loading (pingStep p e) = true /\ pings (pingStep p e) = 1%nat)
  \/ (loading (pingStep p e) = false /\ pings (pingStep p e) = 0%nat).
Proof.
  intros [[Hl Hp] | [Hl Hp]]; destruct e as [ | r]; simpl;
    rewrite ?Hl, ?Hp; simpl; auto.
Qed.

Lemma ping_invariant (es : list PingEvent) (p : Ping) :
  (loading p = true /\ pings p = 1%nat)
  \/ (loading p = false /\ pings p = 0%nat) ->
  (loading (fold_left pingStep es p) = true
   /\ pings (fold_left pingStep es p) = 1%nat)
  \/ (loading (fold_left pingStep es p) = false
      /\ pings (fold_left pingStep es p) = 0%nat).
Proof.
  revert p. induction es as [ | e es IH]; intros p H; simpl; [ exact H | ].
  apply IH. now apply pingStep_keeps.
Qed.

(** X20.  Whatever is pressed and however the pings end, the button
    has at most one ping in flight, and [loading] is set exactly while
    one is; when that ping settles, with any outcome, [loading] is
    cleared, no ping is left and the text is the one of the outcome. *)
Theorem proxy_one_ping_at_a_time (es : list PingEvent) (r : PingOutcome) :
  let p := fold_left pingStep es initialPing in
  (pings p <= 1)%nat
  /\ (loading p = true <-> pings p = 1%nat)
  /\ pingStep (pingStep p Press) Press = pingStep p Press
  /\ (loading p = true ->
      pingStep p (Settled r) = mkPing (pingResponse r) false 0).
Proof.
  intros p.
  destruct (ping_invariant es initialPing) as [[Hl Hp] | [Hl Hp]];
    [ right; split; reflexivity | | ]; fold p in Hl, Hp.
  - conjs.
    + lia.
    + split; auto.
    + assert (E : pingStep p Press = p) by (simpl; now rewrite Hl).
      now rewrite !E.
    + intros _. simpl. now rewrite Hp.
  - conjs.
    + lia.
    + split; [ congruence | lia ].
    + simpl. rewrite Hl. reflexivity.
    + congruence.
Qed.

Lemma proxy_one_ping_at_a_time_witness :
  pingStep (fold_left pingStep [Press; Press] initialPing)
           (Settled (PingStatus 502))
  = mkPing "Error: HTTP 502" false 0.
Proof.
  exact (proj2 (proj2 (proj2
                  (proxy_one_ping_at_a_time [Press; Press] (PingStatus 502))))
               eq_refl).
Defined.
